(** * Papercups browser client: session orchestration and message
    reconciliation

    A shallow embedding of the [Papercups] class of [papercups.ts]: the
    session state, the transcript setters, optimistic send, reconciliation of
    server-pushed messages, customer-id validation and lookup, the greeting
    policy and conversation resolution.

    Conventions.
    - An optional or nullable JavaScript value is an [option]; [None] stands
      for [undefined] and [null] alike, except where the code tells the two
      apart ([Nullable]).
    - A JavaScript string is a [string] holding the bytes of its UTF-8
      encoding.
    - Everything the class does to the outside (channel calls, backend calls,
      storage, configured callbacks, logging) is recorded as an [Event] in the
      session's trace, newest event first.
    - What the outside answers (backend responses, the clock, the helpers of
      [./utils] that are not part of the sources) is collected in a [World].
    - An [async] method runs here from start to end without another event
      handler running at one of its [await]s.
    - A timer set with [setTimeout] is an event of the trace; its callback
      runs as a step of its own, once, after the timer was set. *)

From stdpp Require Import base strings list.
From Stdlib Require Import ZArith Ascii Sorted Permutation.

Open Scope string_scope.
Open Scope list_scope.
Open Scope nat_scope.

(** ** JavaScript values *)

Module JS.

(** Truthiness of a [string | undefined | null]: only a non-empty string is
    truthy. *)
Definition truthy (v : option string) : bool :=
  match v with
  | Some s => negb (String.length s =? 0)%nat
  | None => false
  end.

(** [a || b]. *)
Definition or (a b : option string) : option string :=
  if truthy a then a else b.

(** [a === b] on optional strings. *)
Definition strict_eq (a b : option string) : bool := bool_decide (a = b).

(** ** Strings

    A string is stood for by the bytes of its UTF-8 encoding; a character
    is the one, two or three bytes that encode it. *)

(** White space as [String.prototype.trim] sees it (WhiteSpace and
    LineTerminator of ECMAScript), by the length of the encoding.
    One byte: TAB, LF, VT, FF, CR and SPACE. *)
Definition whiteSpace1 (a : ascii) : bool :=
  let n := nat_of_ascii a in
  ((9 <=? n) && (n <=? 13)) || (n =? 32).

(** Two bytes: U+00A0 (C2 A0). *)
Definition whiteSpace2 (a b : ascii) : bool :=
  (nat_of_ascii a =? 194) && (nat_of_ascii b =? 160).

(** Three bytes: U+1680 (E1 9A 80), U+2000 to U+200A (E2 80 80 to 8A),
    U+2028, U+2029 and U+202F (E2 80 A8, A9 and AF), U+205F (E2 81 9F),
    U+3000 (E3 80 80) and U+FEFF (EF BB BF). *)
Definition whiteSpace3 (a b c : ascii) : bool :=
  let x := nat_of_ascii a in
  let y := nat_of_ascii b in
  let z := nat_of_ascii c in
  ((x =? 225) && (y =? 154) && (z =? 128))
  || ((x =? 226) && (y =? 128)
      && (((128 <=? z) && (z <=? 138)) || (z =? 168) || (z =? 169) || (z =? 175)))
  || ((x =? 226) && (y =? 129) && (z =? 159))
  || ((x =? 227) && (y =? 128) && (z =? 128))
  || ((x =? 239) && (y =? 187) && (z =? 191)).

(** The bytes after a leading white-space character, if there is one. *)
Definition afterWhiteSpace (l : list ascii) : option (list ascii) :=
  match l with
  | a :: l1 =>
      if whiteSpace1 a then Some l1
      else match l1 with
           | b :: l2 =>
               if whiteSpace2 a b then Some l2
               else match l2 with
                    | c :: l3 => if whiteSpace3 a b c then Some l3 else None
                    | [] => None
                    end
           | [] => None
           end
  | [] => None
  end.

(** The same from the end, on the bytes in reverse order.  In UTF-8 no
    encoding of a character ends with the encoding of another, so the bytes
    at the end are a character when they encode one. *)
Definition beforeWhiteSpace (r : list ascii) : option (list ascii) :=
  match r with
  | c :: r1 =>
      if whiteSpace1 c then Some r1
      else match r1 with
           | b :: r2 =>
               if whiteSpace2 b c then Some r2
               else match r2 with
                    | a :: r3 => if whiteSpace3 a b c then Some r3 else None
                    | [] => None
                    end
           | [] => None
           end
  | [] => None
  end.

(** Leading white space dropped. *)
Fixpoint dropWhiteSpace (l : list ascii) : list ascii :=
  match l with
  | a :: l1 =>
      if whiteSpace1 a then dropWhiteSpace l1
      else match l1 with
           | b :: l2 =>
               if whiteSpace2 a b then dropWhiteSpace l2
               else match l2 with
                    | c :: l3 => if whiteSpace3 a b c then dropWhiteSpace l3 else l
                    | [] => l
                    end
           | [] => l
           end
  | [] => l
  end.

(** The same on the bytes in reverse order. *)
Fixpoint dropWhiteSpaceReversed (r : list ascii) : list ascii :=
  match r with
  | c :: r1 =>
      if whiteSpace1 c then dropWhiteSpaceReversed r1
      else match r1 with
           | b :: r2 =>
               if whiteSpace2 b c then dropWhiteSpaceReversed r2
               else match r2 with
                    | a :: r3 =>
                        if whiteSpace3 a b c then dropWhiteSpaceReversed r3 else r
                    | [] => r
                    end
           | [] => r
           end
  | [] => r
  end.

Definition trimStart (s : string) : string :=
  String.string_of_list_ascii (dropWhiteSpace (String.list_ascii_of_string s)).

Definition trimEnd (s : string) : string :=
  String.string_of_list_ascii
    (rev (dropWhiteSpaceReversed (rev (String.list_ascii_of_string s)))).

Definition trim (s : string) : string := trimEnd (trimStart s).

(** Every character is white space. *)
Fixpoint blank (l : list ascii) : bool :=
  match l with
  | a :: l1 =>
      if whiteSpace1 a then blank l1
      else match l1 with
           | b :: l2 =>
               if whiteSpace2 a b then blank l2
               else match l2 with
                    | c :: l3 => whiteSpace3 a b c && blank l3
                    | [] => false
                    end
           | [] => false
           end
  | [] => true
  end.

Definition whitespaceOnly (s : string) : bool := blank (String.list_ascii_of_string s).

End JS.

(** ** Data model ([./types]) *)

(** ['customer' | 'agent' | 'bot'] *)
Module MessageType.
Inductive t := customer | agent | bot.
End MessageType.

#[global] Instance MessageType_eq_dec : EqDecision MessageType.t.
Proof. solve_decision. Defined.

(** [Message]; every field may be missing, so the same record serves for
    [Partial<Message>]. *)
Record Message := mkMessage {
  body : option string;
  file_ids : option (list string);
  type : option MessageType.t;
  customer_id : option string;
  sent_at : option string;
  created_at : option string;
  seen_at : option string;
}.

#[global] Instance Message_eq_dec : EqDecision Message.
Proof. solve_decision. Defined.

(** An object spread last into a message literal, [{..., ...overrides}]: for
    each field, [None] when the key is absent and [Some v] when the key is
    present with value [v] (which can itself be [undefined]). *)
Record Overrides := mkOverrides {
  o_body : option (option string);
  o_file_ids : option (option (list string));
  o_type : option (option MessageType.t);
  o_customer_id : option (option string);
  o_sent_at : option (option string);
  o_created_at : option (option string);
  o_seen_at : option (option string);
}.

(** [{}] *)
Definition noOverrides : Overrides :=
  mkOverrides None None None None None None None.

(** [{...base, ...overrides}] *)
Definition spread (base : Message) (ov : Overrides) : Message :=
  {| body := default (body base) (o_body ov);
     file_ids := default (file_ids base) (o_file_ids ov);
     type := default (type base) (o_type ov);
     customer_id := default (customer_id base) (o_customer_id ov);
     sent_at := default (sent_at base) (o_sent_at ov);
     created_at := default (created_at base) (o_created_at ov);
     seen_at := default (seen_at base) (o_seen_at ov) |}.

Record CustomerMetadata := mkCustomerMetadata {
  name : option string;
  email : option string;
  external_id : option string;
  host : option string;
}.

#[global] Instance CustomerMetadata_eq_dec : EqDecision CustomerMetadata.
Proof. solve_decision. Defined.

(** [{}] *)
Definition noMetadata : CustomerMetadata :=
  mkCustomerMetadata None None None None.

Record Account := mkAccount {
  is_outside_working_hours : option bool;
}.

Record WidgetSettings := mkWidgetSettings {
  ws_greeting : option string;
  away_message : option string;
  account : option Account;
}.

(** [{}] *)
Definition noSettings : WidgetSettings := mkWidgetSettings None None None.

(** A value of the backend's JSON whose key can be absent ([undefined]),
    hold [null], or hold a value. *)
Inductive Nullable (A : Type) :=
  | Undefined
  | Null
  | Value (a : A).
Arguments Undefined {A}.
Arguments Null {A}.
Arguments Value {A} a.

Record Conversation := mkConversation {
  conv_id : string;
  conv_messages : Nullable (list Message);
}.

(** [Config].  A callback of the embedding page is a flag saying whether it is
    configured; each call of it is an event of the trace.  The one callback
    whose result the class uses, [setInitialMessage], is a function. *)
Record Config := mkConfig {
  accountId : string;
  cfg_customerId : option string;
  greeting : option string;
  awayMessage : option string;
  cfg_customer : option CustomerMetadata;
  setInitialMessage : option (Overrides → list Message);
  onSetCustomerId : bool;
  onSetConversationId : bool;
  onSetWidgetSettings : bool;
  onMessageCreated : bool;
  onConversationCreated : bool;
  onMessagesUpdated : bool;
}.

(** ** Channels of the realtime transport *)

Inductive ChannelKind := RoomChannel | LobbyChannel | ConversationChannel.

#[global] Instance ChannelKind_eq_dec : EqDecision ChannelKind.
Proof. solve_decision. Defined.

(** The object [socket.channel(topic, params)] returns.  [chan_ref] tells two
    channel objects apart; [chan_kind] records which method created it. *)
Record Channel := mkChannel {
  chan_ref : nat;
  chan_kind : ChannelKind;
  chan_topic : string;
  chan_customer_id : option string;
}.

#[global] Instance Channel_eq_dec : EqDecision Channel.
Proof. solve_decision. Defined.

(** ** The trace *)

Inductive Event :=
  | SocketConnect
  | SocketDisconnect
  | SocketChannel (c : Channel)
  | PresenceOnSync (c : Channel)
  | ChannelOn (c : Channel) (event : string)
  | ChannelJoin (c : Channel)
  | ChannelLeave (c : Channel)
  | ChannelPush (c : Channel) (event : string) (payload : option Message)
  | ApiFetchWidgetSettings (accountId : string)
  | ApiIsValidCustomer (customerId : string)
  | ApiFindCustomerByExternalId (externalId : string) (email host : option string)
  | ApiFetchCustomerConversations (customerId : string)
  | ApiCreateNewCustomer (metadata : CustomerMetadata)
  | ApiUpdateCustomerMetadata (customerId : string) (metadata : CustomerMetadata)
  | ApiCreateNewConversation (customerId : string)
  | StorageSetCustomerId (customerId : string)
  | StorageRemoveCustomerId
  | DispatchCustomerSet (customerId : option string)
  | OnSetCustomerId (customerId : option string)
  | OnSetConversationId (conversationId : string)
  | OnSetWidgetSettings (settings : WidgetSettings)
  | OnMessagesUpdated (messages : list Message)
  | OnMessageCreated (message : Message)
  | OnConversationCreated (customerId : string)
  | SetTimeoutFetchLatestConversation (customerId : string)
  | TimeoutFetchLatestConversation (customerId : string)
  | ConsoleDebug (text : string)
  | ConsoleWarn (text : string)
  | ConsoleError (text : string).

(** What a call that can throw (or a promise that can reject) yields. *)
Inductive Completion (A : Type) :=
  | Normal (a : A)
  | Throw.
Arguments Normal {A} a.
Arguments Throw {A}.

(** ** The world around the session *)

Record World := mkWorld {
  (** [areDatesEqual] of [./utils] (not among the sources). *)
  areDatesEqual : option string → option string → bool;
  (** [isValidUuid] of [./utils] (not among the sources). *)
  isValidUuid : string → bool;
  (** [+new Date(x)]; [None] is [NaN]. *)
  dateValue : option string → option Z;
  (** [new Date().toISOString()] at the n-th reading of the clock. *)
  clock : nat → string;
  (** The backend's answer to each call of [./api], given everything that
      happened before the call. *)
  api_fetchWidgetSettings : list Event → string → Completion (option WidgetSettings);
  api_isValidCustomer : list Event → string → Completion bool;
  api_findCustomerByExternalId :
    list Event → string → option string → option string → Completion (option string);
  api_fetchCustomerConversations : list Event → string → Completion (list Conversation);
  api_createNewCustomer : list Event → CustomerMetadata → Completion string;
  api_updateCustomerMetadata : list Event → string → CustomerMetadata → Completion string;
  api_createNewConversation : list Event → string → Completion string;
  (** What [Array.prototype.sort] makes of an array for which the comparator
      of [fetchLatestConversation] yields [NaN] on some pair: the order is
      then implementation-defined. *)
  engineSort : list Message → list Message;
}.

(** ** Session state: the fields of the class *)

Record State := mkState {
  config : Config;
  debugModeEnabled : bool;
  customerId : option string;
  conversationId : option string;
  messages : list Message;
  settings : WidgetSettings;
  channel : option Channel;
  (** channel objects created so far *)
  channels_made : nat;
  (** readings of the clock so far *)
  clock_reads : nat;
  (** newest event first *)
  trace : list Event;
}.

(** ** The monad of methods: state and exceptions *)

Definition M (A : Type) : Type := State → Completion A * State.

#[global] Instance M_ret : MRet M := λ A a st, (Normal a, st).

#[global] Instance M_bind : MBind M := λ A B f m st,
  match m st with
  | (Normal a, st') => f a st'
  | (Throw, st') => (Throw, st')
  end.

Definition get {A} (f : State → A) : M A := λ st, (Normal (f st), st).

Definition modify (f : State → State) : M unit := λ st, (Normal tt, f st).

(** [try { m } catch (err) { handler }] *)
Definition try_catch {A} (m handler : M A) : M A := λ st,
  match m st with
  | (Normal a, st') => (Normal a, st')
  | (Throw, st') => handler st'
  end.

(** [throw err] *)
Definition throw {A} : M A := λ st, (Throw, st).

Definition when (b : bool) (m : M unit) : M unit :=
  if b then m else mret tt.

Definition set_trace (tr : list Event) (st : State) : State :=
  mkState (config st) (debugModeEnabled st) (customerId st) (conversationId st)
    (messages st) (settings st) (channel st) (channels_made st) (clock_reads st) tr.

Definition emit (e : Event) : M unit :=
  modify (λ st, set_trace (e :: trace st) st).

(** A call to the outside whose answer the world gives. *)
Definition await {A} (e : Event) (answer : list Event → Completion A) : M A := λ st,
  (answer (trace st), set_trace (e :: trace st) st).

Definition result {A} (r : Completion A * State) : Completion A := fst r.
Definition final {A} (r : Completion A * State) : State := snd r.

(** Field updates. *)
Definition set_customerId (v : option string) (st : State) : State :=
  mkState (config st) (debugModeEnabled st) v (conversationId st)
    (messages st) (settings st) (channel st) (channels_made st) (clock_reads st) (trace st).

Definition set_conversationId (v : option string) (st : State) : State :=
  mkState (config st) (debugModeEnabled st) (customerId st) v
    (messages st) (settings st) (channel st) (channels_made st) (clock_reads st) (trace st).

Definition set_messages (v : list Message) (st : State) : State :=
  mkState (config st) (debugModeEnabled st) (customerId st) (conversationId st)
    v (settings st) (channel st) (channels_made st) (clock_reads st) (trace st).

Definition set_settings (v : WidgetSettings) (st : State) : State :=
  mkState (config st) (debugModeEnabled st) (customerId st) (conversationId st)
    (messages st) v (channel st) (channels_made st) (clock_reads st) (trace st).

Definition set_channel (v : option Channel) (st : State) : State :=
  mkState (config st) (debugModeEnabled st) (customerId st) (conversationId st)
    (messages st) (settings st) v (channels_made st) (clock_reads st) (trace st).

(** The clock has been read [n] more times. *)
Definition tick (n : nat) (st : State) : State :=
  mkState (config st) (debugModeEnabled st) (customerId st) (conversationId st)
    (messages st) (settings st) (channel st) (channels_made st)
    (n + clock_reads st) (trace st).

(** [for (x of l) { f(x) }] collecting the results, as [Array.prototype.map]
    does with a callback that has effects. *)
Fixpoint mapM {A B} (f : A → M B) (l : list A) : M (list B) :=
  match l with
  | [] => mret []
  | x :: l' => y ← f x; ys ← mapM f l'; mret (y :: ys)
  end.

(** ** Timers *)

Fixpoint removeFirst (x : string) (l : list string) : list string :=
  match l with
  | [] => []
  | y :: l' => if bool_decide (x = y) then l' else y :: removeFirst x l'
  end.

(** The customers of the timers that were set and whose callback has not run
    yet, after the events of [tr] (newest first). *)
Fixpoint pendingTimeouts (tr : list Event) : list string :=
  match tr with
  | [] => []
  | SetTimeoutFetchLatestConversation customer :: older =>
      customer :: pendingTimeouts older
  | TimeoutFetchLatestConversation customer :: older =>
      removeFirst customer (pendingTimeouts older)
  | _ :: older => pendingTimeouts older
  end.

(** ** The methods of [Papercups] *)

Section Papercups.

Variable W : World.

(** *** Collaborators: logger, clock, socket *)

Definition logger_debug (text : string) : M unit :=
  enabled ← get debugModeEnabled;
  when enabled (emit (ConsoleDebug text)).

Definition logger_warn (text : string) : M unit := emit (ConsoleWarn text).

Definition logger_error (text : string) : M unit := emit (ConsoleError text).

(** [new Date().toISOString()] *)
Definition now : M string := λ st,
  (Normal (clock W (clock_reads st)), tick 1 st).

(** [this.socket.channel(topic, {customer_id})] *)
Definition socket_channel (kind : ChannelKind) (topic : string)
    (customer : option string) : M Channel := λ st,
  let c := mkChannel (channels_made st) kind topic customer in
  (Normal c,
   mkState (config st) (debugModeEnabled st) (customerId st) (conversationId st)
     (messages st) (settings st) (channel st) (S (channels_made st))
     (clock_reads st) (SocketChannel c :: trace st)).

(** *** Connection *)

(** The handler given to [presence.onSync] only forwards the presence to
    the configured callback; its registration is recorded. *)
Definition listenForAgentAvailability : M unit :=
  cfg ← get config;
  room ← socket_channel RoomChannel ("room:" +:+ accountId cfg) None;
  emit (ChannelJoin room);;
  emit (PresenceOnSync room).

Definition connect : M unit :=
  emit SocketConnect;;
  listenForAgentAvailability.

Definition disconnect : M unit :=
  emit SocketDisconnect;;
  ch ← get channel;
  match ch with
  | Some c => emit (ChannelLeave c)
  | None => mret tt
  end.

(** *** Setters *)

Definition setWidgetSettings (new_settings : WidgetSettings) : M unit :=
  modify (set_settings new_settings);;
  cfg ← get config;
  when (onSetWidgetSettings cfg) (emit (OnSetWidgetSettings new_settings)).

Definition setMessages (msgs : list Message) : M unit :=
  modify (set_messages msgs);;
  cfg ← get config;
  when (onMessagesUpdated cfg) (emit (OnMessagesUpdated msgs)).

Definition cacheCustomerId (id : option string) : M unit :=
  logger_debug "Caching customer ID:";;
  match id with
  | Some s => if JS.truthy id then emit (StorageSetCustomerId s)
              else emit StorageRemoveCustomerId
  | None => emit StorageRemoveCustomerId
  end.

Definition setCustomerId (id : option string) : M unit :=
  modify (set_customerId id);;
  cacheCustomerId id;;
  emit (DispatchCustomerSet id);;
  cfg ← get config;
  when (onSetCustomerId cfg) (emit (OnSetCustomerId id)).

(** The [receive('ok' | 'error')] handlers of a join only log, when the
    server answers; they are left out. *)
Definition joinConversationChannel (conversation : string)
    (fallbackCustomerId : option string) : M unit :=
  old ← get channel;
  match old with
  | Some c => emit (ChannelLeave c)
  | None => mret tt
  end;;
  this_customerId ← get customerId;
  let customer := JS.or this_customerId fallbackCustomerId in
  logger_debug "Joining channel:";;
  c ← socket_channel ConversationChannel ("conversation:" +:+ conversation) customer;
  modify (set_channel (Some c));;
  emit (ChannelOn c "shout");;
  emit (ChannelJoin c).

Definition setConversationId (conversation : string) : M unit :=
  modify (set_conversationId (Some conversation));;
  joinConversationChannel conversation None;;
  cfg ← get config;
  when (onSetConversationId cfg) (emit (OnSetConversationId conversation)).

Definition listenForNewConversations (customer : string) : M unit :=
  c ← socket_channel LobbyChannel ("conversation:lobby:" +:+ customer) None;
  emit (ChannelOn c "conversation:created");;
  emit (ChannelJoin c).

(** *** Customers and conversations on the backend *)

Definition createNewConversation (customer : string) : M string :=
  await (ApiCreateNewConversation customer)
        (λ h, api_createNewConversation W h customer).

Definition updateCustomerMetadata (customer : string)
    (metadata : CustomerMetadata) : M string :=
  await (ApiUpdateCustomerMetadata customer metadata)
        (λ h, api_updateCustomerMetadata W h customer metadata).

Definition createNewCustomer (metadata : CustomerMetadata) : M string :=
  await (ApiCreateNewCustomer metadata)
        (λ h, api_createNewCustomer W h metadata).

Definition createOrUpdateCustomer (existingCustomerId : option string)
    (metadata : CustomerMetadata) : M string :=
  try_catch
    (match existingCustomerId with
     | Some existing =>
         if JS.truthy existingCustomerId
         then updateCustomerMetadata existing metadata
         else createNewCustomer metadata
     | None => createNewCustomer metadata
     end)
    (logger_error "Failed to update or create customer:";;
     logger_error "Retrying...";;
     createNewCustomer metadata).

Definition initializeNewConversation (existingCustomerId : option string)
    (email_arg : option string) : M unit :=
  cfg ← get config;
  let customer := default noMetadata (cfg_customer cfg) in
  let metadata :=
    if JS.truthy email_arg
    then mkCustomerMetadata (name customer) email_arg
           (external_id customer) (host customer)
    else customer in
  newCustomerId ← createOrUpdateCustomer existingCustomerId metadata;
  newConversationId ← createNewConversation newCustomerId;
  setCustomerId (Some newCustomerId);;
  setConversationId newConversationId.

Definition findCustomerByExternalId (externalId : string)
    (filter_email filter_host : option string) : M (option string) :=
  await (ApiFindCustomerByExternalId externalId filter_email filter_host)
        (λ h, api_findCustomerByExternalId W h externalId filter_email filter_host).

Definition findCustomerByMetadata (metadata : option CustomerMetadata)
    : M (option string) :=
  match metadata with
  | None => mret None
  | Some md =>
      match external_id md with
      | Some externalId =>
          if JS.truthy (external_id md)
          then findCustomerByExternalId externalId (email md) (host md)
          else mret None
      | None => mret None
      end
  end.

Definition checkForExistingCustomer (metadata : option CustomerMetadata)
    (defaultCustomerId : option string) : M (option string) :=
  match metadata with
  | None => mret defaultCustomerId
  | Some md =>
      if negb (JS.truthy (external_id md)) then mret defaultCustomerId
      else
        matchingCustomerId ← findCustomerByMetadata metadata;
        if negb (JS.truthy matchingCustomerId) then mret None
        else if JS.strict_eq matchingCustomerId defaultCustomerId
             then mret defaultCustomerId
             else mret matchingCustomerId
  end.

Definition fetchLatestCustomerConversation (customer : string)
    : M (option Conversation) :=
  conversations ← await (ApiFetchCustomerConversations customer)
                        (λ h, api_fetchCustomerConversations W h customer);
  logger_debug "Found existing conversations:";;
  mret (head conversations).

Definition fetchWidgetSettings : M WidgetSettings :=
  cfg ← get config;
  try_catch
    (fetched ← await (ApiFetchWidgetSettings (accountId cfg))
                     (λ h, api_fetchWidgetSettings W h (accountId cfg));
     mret (default noSettings fetched))
    (mret noSettings).

(** *** Customer-id validation *)

Definition isValidCustomer (customer : string) : M bool :=
  await (ApiIsValidCustomer customer) (λ h, api_isValidCustomer W h customer).

Definition isValidCustomerId (id : option string) : M bool :=
  match id with
  | None => mret false
  | Some s =>
      if negb (JS.truthy id) || (String.length s =? 0)%nat then mret false
      else if negb (isValidUuid W s) then mret false
      else
        try_catch (isValidCustomer s)
          (logger_warn "Failed to validate customer ID.";;
           logger_warn "You might be on an older version of Papercups.";;
           mret true)
  end.

(** *** The transcript *)

(** The callback of [map] in [markMessagesAsSeen]. *)
Definition markSeen (msg : Message) : M Message :=
  if JS.truthy (seen_at msg) then mret msg
  else
    t ← now;
    mret (mkMessage (body msg) (file_ids msg) (type msg) (customer_id msg)
            (sent_at msg) (created_at msg) (Some t)).

Definition markMessagesAsSeen : M unit :=
  ch ← get channel;
  match ch with
  | Some c => emit (ChannelPush c "messages:seen" None)
  | None => mret tt
  end;;
  current ← get messages;
  marked ← mapM markSeen current;
  setMessages marked.

Definition sendNewMessage (message : Message) (email_arg : option string)
    : M unit :=
  this_customerId ← get customerId;
  this_conversationId ← get conversationId;
  let body_ := default "" (body message) in
  let file_ids_ := default [] (file_ids message) in
  let isMissingBody :=
    (String.length body_ =? 0)%nat || (String.length (JS.trim body_) =? 0)%nat in
  let isMissingAttachments := (length file_ids_ =? 0)%nat in
  let isInvalidMessage := isMissingBody && isMissingAttachments in
  if isInvalidMessage then mret tt
  else
    sentAt ← now;
    let payload :=
      mkMessage (Some body_) (file_ids message) (Some MessageType.customer) this_customerId
        (Some sentAt) (created_at message) (seen_at message) in
    current ← get messages;
    setMessages (current ++ [payload]);;
    when (negb (JS.truthy this_customerId) || negb (JS.truthy this_conversationId))
      (initializeNewConversation this_customerId email_arg);;
    ch ← get channel;
    match ch with
    | Some c =>
        new_customerId ← get customerId;
        emit (ChannelPush c "shout"
                (Some (mkMessage (Some body_) (file_ids message) (type message)
                         new_customerId (Some sentAt) (created_at message)
                         (seen_at message))))
    | None => mret tt
    end.

(** The predicate of [find] in [handleMessageCreated]. *)
Definition isUnsent (message m : Message) : bool :=
  negb (JS.truthy (created_at m))
  && areDatesEqual W (sent_at m) (sent_at message)
  && (bool_decide (body m = body message)
      || (negb (JS.truthy (body m)) && negb (JS.truthy (body message)))).

(** The value of [updated] in [handleMessageCreated]. *)
Definition reconcile (msgs : list Message) (message : Message) : list Message :=
  match find (isUnsent message) msgs with
  | Some unsent =>
      map (λ m, if JS.strict_eq (sent_at m) (sent_at unsent) then message else m) msgs
  | None => msgs ++ [message]
  end.

Definition handleMessageCreated (message : Message) : M unit :=
  current ← get messages;
  setMessages (reconcile current message).

(** The handler of ['shout'] installed by [joinConversationChannel]. *)
Definition onShout (message : Message) : M unit :=
  handleMessageCreated message;;
  cfg ← get config;
  when (onMessageCreated cfg) (emit (OnMessageCreated message)).

(** *** Greeting policy *)

Definition getDefaultGreeting (overrides : Overrides) : M (list Message) :=
  cfg ← get config;
  match setInitialMessage cfg with
  | Some generate => mret (generate overrides)
  | None =>
      st_settings ← get settings;
      let greeting_ := JS.or (greeting cfg) (ws_greeting st_settings) in
      let awayMessage_ := JS.or (awayMessage cfg) (away_message st_settings) in
      if negb (JS.truthy greeting_) && negb (JS.truthy awayMessage_) then mret []
      else
        let hasAwayMessage := JS.truthy awayMessage_ in
        let isOutsideWorkingHours :=
          match account st_settings with
          | Some acc => default false (is_outside_working_hours acc)
          | None => false
          end in
        let shouldDisplayAwayMessage := hasAwayMessage && isOutsideWorkingHours in
        t ← now;
        mret [spread
                (mkMessage (if shouldDisplayAwayMessage then awayMessage_ else greeting_)
                   None (Some MessageType.bot) (Some "bot") None (Some t) None)
                overrides]
  end.

(** *** Conversation resolution *)

(** The comparator of [sort] in [fetchLatestConversation], for two creation
    times that are dates; [0] stands for the [NaN] it yields otherwise. *)
Definition compareCreatedAt (a b : Message) : Z :=
  match dateValue W (created_at a), dateValue W (created_at b) with
  | Some x, Some y => x - y
  | _, _ => 0
  end.

Fixpoint insertSorted (x : Message) (l : list Message) : list Message :=
  match l with
  | [] => [x]
  | y :: l' =>
      if (0 <? compareCreatedAt x y)%Z then y :: insertSorted x l'
      else x :: l
  end.

(** The stable sort by creation time.  The sort of ECMAScript is stable,
    and the stable ordering of a list under a consistent comparator is
    unique, so the engine's algorithm then yields the list that insertion
    yields. *)
Definition sortByCreatedAt (l : list Message) : list Message :=
  foldr insertSorted [] l.

(** The comparator yields a number on every pair of [l]: every creation
    time is a date. *)
Definition comparable (l : list Message) : bool :=
  forallb (λ m, bool_decide (is_Some (dateValue W (created_at m)))) l.

(** [messages.sort(compare)].  A comparator that yields [NaN] is not a
    consistent comparator, and the order is then the engine's own. *)
Definition arraySort (l : list Message) : list Message :=
  if comparable l then sortByCreatedAt l else engineSort W l.

(** The conversation object once its array of messages was sorted in
    place. *)
Definition sortedInPlace (conv : Conversation) : Conversation :=
  match conv_messages conv with
  | Value msgs => mkConversation (conv_id conv) (Value (arraySort msgs))
  | _ => conv
  end.

(** [fetchLatestConversation].  The destructuring
    [const {id: conversationId, messages = []} = conversation] takes the
    default for [undefined] only, so that [messages.sort] throws for
    [null]. *)
Definition fetchLatestConversation (fallbackCustomerId : option string)
    : M (option Conversation) :=
  try_catch
    (this_customerId ← get customerId;
     match JS.or this_customerId fallbackCustomerId with
     | None =>
         g ← getDefaultGreeting noOverrides;
         setMessages g;;
         mret None
     | Some customer =>
         if negb (JS.truthy (Some customer)) then
           g ← getDefaultGreeting noOverrides;
           setMessages g;;
           mret None
         else
           logger_debug "Fetching conversations for customer:";;
           conversation ← fetchLatestCustomerConversation customer;
           match conversation with
           | None =>
               g ← getDefaultGreeting noOverrides;
               setMessages g;;
               listenForNewConversations customer;;
               mret None
           | Some conv =>
               formattedMessages ←
                 match conv_messages conv with
                 | Undefined => mret (arraySort [])
                 | Null => throw
                 | Value msgs => mret (arraySort msgs)
                 end;
               let initialMessageCreatedAt :=
                 match formattedMessages with
                 | initialMessage :: _ => created_at initialMessage
                 | [] => None
                 end in
               setConversationId (conv_id conv);;
               g ← getDefaultGreeting
                     (mkOverrides None None None None None
                        (Some initialMessageCreatedAt)
                        (Some initialMessageCreatedAt));
               setMessages (g ++ formattedMessages);;
               mret (Some (sortedInPlace conv))
           end
     end)
    (logger_debug "Error fetching conversations!";;
     mret None).

(** *** Start-up *)

Definition start : M (option Conversation) :=
  connect;;
  fetched ← fetchWidgetSettings;
  cached ← get customerId;
  isValidCustomer_ ← isValidCustomerId cached;
  this_customerId ← get customerId;
  let validatedCustomerId :=
    if (isValidCustomer_ : bool) then this_customerId else None in
  cfg ← get config;
  let metadata := default noMetadata (cfg_customer cfg) in
  resolved ← checkForExistingCustomer (Some metadata) validatedCustomerId;
  setWidgetSettings fetched;;
  setCustomerId resolved;;
  fetchLatestConversation resolved.

(** The handler of ['conversation:created'] installed by
    [listenForNewConversations]; it sets a timer, whose callback is
    [onTimeout]. *)
Definition onConversationCreatedEvent (customer : string) : M unit :=
  cfg ← get config;
  when (onConversationCreated cfg) (emit (OnConversationCreated customer));;
  emit (SetTimeoutFetchLatestConversation customer).

(** A timer set by the handler above is due: its callback
    [() => this.fetchLatestConversation(customerId)] runs.  Nothing runs when
    no such timer is pending. *)
Definition onTimeout (customer : string) : M unit :=
  tr ← get trace;
  if bool_decide (customer ∈ pendingTimeouts tr) then
    emit (TimeoutFetchLatestConversation customer);;
    fetchLatestConversation (Some customer);;
    mret tt
  else mret tt.

End Papercups.

(** The state the constructor leaves: [debug] is [isDev(w) || isDebugMode]
    and [cached] what [storage.getCustomerId()] returns. *)
Definition newSession (cfg : Config) (debug : bool) (cached : option string) : State :=
  mkState cfg debug (JS.or (JS.or (cfg_customerId cfg) cached) None) None []
    noSettings None 0 0 [].

(** ** Conversation channels joined at a point of the trace *)

Definition isConversationChannel (c : Channel) : bool :=
  bool_decide (chan_kind c = ConversationChannel).

(** The conversation channels joined and not left again, after the events
    of [tr] (newest first). *)
Fixpoint joinedConversations (tr : list Event) : list Channel :=
  match tr with
  | [] => []
  | ChannelJoin c :: older =>
      if isConversationChannel c then c :: joinedConversations older
      else joinedConversations older
  | ChannelLeave c :: older =>
      filter (λ c', c' ≠ c) (joinedConversations older)
  | _ :: older => joinedConversations older
  end.

(** [setConversationId] called with each id of [ids] in turn. *)
Fixpoint setConversationIds (ids : list string) : M unit :=
  match ids with
  | [] => mret tt
  | id :: ids' => setConversationId id;; setConversationIds ids'
  end.

(** The session has never had two conversation channels joined at once, and
    each conversation channel was joined when none was joined. *)
Definition neverTwoJoined (tr : list Event) : Prop :=
  ∀ tr', tr' `suffix_of` tr →
    (length (joinedConversations tr') ≤ 1)%nat
    ∧ ∀ c older, tr' = ChannelJoin c :: older →
        isConversationChannel c = true → joinedConversations older = [].

(** A conversation channel that is joined is the one the session holds. *)
Definition holdsJoined (st : State) : Prop :=
  joinedConversations (trace st) = []
  ∨ ∃ c, channel st = Some c ∧ joinedConversations (trace st) = [c].

(** An event that is neither the join of a conversation channel nor a
    leave. *)
Definition quiet (e : Event) : Prop :=
  match e with
  | ChannelJoin c => isConversationChannel c = false
  | ChannelLeave _ => False
  | _ => True
  end.

(** What holds of a session at all times, as far as conversation channels
    go. *)
Definition sessionInv (st : State) : Prop :=
  neverTwoJoined (trace st) ∧ holdsJoined st.

(** A method keeps [sessionInv], whether it returns or throws. *)
Definition preserves {A} (m : M A) : Prop :=
  ∀ st, sessionInv st → sessionInv (final (m st)).

(** ** Sessions as sequences of calls *)

(** What the embedding page and the transport can do to a session. *)
Inductive Call :=
  | CallStart
  | CallConnect
  | CallDisconnect
  | CallSetWidgetSettings (new_settings : WidgetSettings)
  | CallSetCustomerId (id : option string)
  | CallSetConversationId (id : string)
  | CallSetMessages (msgs : list Message)
  | CallInitializeNewConversation (existing email_arg : option string)
  | CallSendNewMessage (message : Message) (email_arg : option string)
  | CallMarkMessagesAsSeen
  | CallFetchLatestConversation (fallback : option string)
  | DeliverShout (message : Message)
  | DeliverConversationCreated (customer : string)
  | DeliverTimeout (customer : string).

Definition perform (W : World) (call : Call) (st : State) : State :=
  match call with
  | CallStart => final (start W st)
  | CallConnect => final (connect st)
  | CallDisconnect => final (disconnect st)
  | CallSetWidgetSettings new_settings => final (setWidgetSettings new_settings st)
  | CallSetCustomerId id => final (setCustomerId id st)
  | CallSetConversationId id => final (setConversationId id st)
  | CallSetMessages msgs => final (setMessages msgs st)
  | CallInitializeNewConversation existing email_arg =>
      final (initializeNewConversation W existing email_arg st)
  | CallSendNewMessage message email_arg =>
      final (sendNewMessage W message email_arg st)
  | CallMarkMessagesAsSeen => final (markMessagesAsSeen W st)
  | CallFetchLatestConversation fallback =>
      final (fetchLatestConversation W fallback st)
  | DeliverShout message => final (onShout W message st)
  | DeliverConversationCreated customer =>
      final (onConversationCreatedEvent customer st)
  | DeliverTimeout customer => final (onTimeout W customer st)
  end.

Definition session (W : World) (calls : list Call) (st : State) : State :=
  foldl (λ st' call, perform W call st') st calls.

(** ** Relating a message to what [markMessagesAsSeen] makes of it *)

(** [m'] is [m] itself when [m] carries a seen timestamp, and otherwise [m]
    with a seen timestamp and every other field as in [m]. *)
Definition markedSeen (m m' : Message) : Prop :=
  if JS.truthy (seen_at m) then m' = m
  else ∃ t, m' = mkMessage (body m) (file_ids m) (type m) (customer_id m)
                   (sent_at m) (created_at m) (Some t).

(** ** Order of creation *)

(** The creation time of [m] is a date. *)
Definition dated (W : World) (m : Message) : Prop :=
  is_Some (dateValue W (created_at m)).

(** [a] was created no later than [b], both creation times being dates. *)
Definition notAfter (W : World) (a b : Message) : Prop :=
  match dateValue W (created_at a), dateValue W (created_at b) with
  | Some x, Some y => (x ≤ y)%Z
  | _, _ => False
  end.

(** [{created_at: t, seen_at: t}] *)
Definition pinnedTo (t : option string) : Overrides :=
  mkOverrides None None None None None (Some t) (Some t).

(** [initialMessage?.created_at] for [const [initialMessage] = l]. *)
Definition firstCreatedAt (l : list Message) : option string :=
  match l with
  | initialMessage :: _ => created_at initialMessage
  | [] => None
  end.

(** The array of messages a conversation holds; none when it holds no
    array. *)
Definition messagesOf (conv : Conversation) : list Message :=
  match conv_messages conv with
  | Value msgs => msgs
  | _ => []
  end.

(** The session after [logger.debug(text)]. *)
Definition logged (text : string) (st : State) : State :=
  if debugModeEnabled st then set_trace (ConsoleDebug text :: trace st) st else st.

(** ** More methods of [Papercups] *)

Section MoreMethods.

Variable W : World.

(** [identify]; the customer the backend returns is stood for by its id, and
    the lookup runs with the default filters [{}]. *)
Definition identify (externalId : string) (metadata : CustomerMetadata) : M string :=
  try_catch
    (existingCustomerId ← findCustomerByExternalId W externalId None None;
     match existingCustomerId with
     | Some existing =>
         if JS.truthy existingCustomerId
         then updateCustomerMetadata W existing metadata
         else createNewCustomer W metadata
     | None => createNewCustomer W metadata
     end)
    (logger_error "Failed to update or create customer:";;
     logger_error "Retrying...";;
     createNewCustomer W metadata).

Definition updateExistingCustomer (customer : string)
    (metadata : option CustomerMetadata) : M unit :=
  match metadata with
  | None => mret tt
  | Some md =>
      try_catch
        (updateCustomerMetadata W customer md;; mret tt)
        (logger_debug "Error updating customer metadata!")
  end.

End MoreMethods.

(** ** What the embedding page and the storage were last told *)

(** The transcript of the latest [onMessagesUpdated] call. *)
Fixpoint lastMessagesUpdated (tr : list Event) : option (list Message) :=
  match tr with
  | [] => None
  | OnMessagesUpdated msgs :: _ => Some msgs
  | _ :: older => lastMessagesUpdated older
  end.

(** What the storage holds after its latest write: [Some None] once the id
    was removed. *)
Fixpoint lastStored (tr : list Event) : option (option string) :=
  match tr with
  | [] => None
  | StorageSetCustomerId id :: _ => Some (Some id)
  | StorageRemoveCustomerId :: _ => Some None
  | _ :: older => lastStored older
  end.

(** The detail of the latest ['papercups:customer:set'] event. *)
Fixpoint lastDispatched (tr : list Event) : option (option string) :=
  match tr with
  | [] => None
  | DispatchCustomerSet id :: _ => Some id
  | _ :: older => lastDispatched older
  end.

(** The customer id as the storage keeps it: nothing for a falsy id. *)
Definition storable (id : option string) : option string :=
  if JS.truthy id then id else None.

(** The session's channel is the channel of its conversation, or it has
    neither. *)
Definition linked (st : State) : Prop :=
  (conversationId st = None ∧ channel st = None)
  ∨ ∃ id c, conversationId st = Some id ∧ channel st = Some c
            ∧ chan_topic c = "conversation:" +:+ id
            ∧ chan_kind c = ConversationChannel.

Definition isPush (e : Event) : bool :=
  match e with
  | ChannelPush _ _ _ => true
  | _ => false
  end.

Definition isApiCall (e : Event) : bool :=
  match e with
  | ApiFetchWidgetSettings _ | ApiIsValidCustomer _
  | ApiFindCustomerByExternalId _ _ _ | ApiFetchCustomerConversations _
  | ApiCreateNewCustomer _ | ApiUpdateCustomerMetadata _ _
  | ApiCreateNewConversation _ => true
  | _ => false
  end.

Definition isConsoleDebug (e : Event) : bool :=
  match e with
  | ConsoleDebug _ => true
  | _ => false
  end.

(** The embedding page knows the transcript: the latest [onMessagesUpdated]
    call carried it, or there was none and it is still the [initial] one. *)
Definition toldTranscript (initial : list Message) (st : State) : Prop :=
  match lastMessagesUpdated (trace st) with
  | Some msgs => messages st = msgs
  | None => messages st = initial
  end.

(** The page and the storage know the customer id: the latest event carried
    it and the storage holds it, or nothing was said or stored and it is
    still the [initial] one. *)
Definition toldCustomer (initial : option string) (st : State) : Prop :=
  match lastDispatched (trace st) with
  | Some id => customerId st = id ∧ lastStored (trace st) = Some (storable id)
  | None => customerId st = initial ∧ lastStored (trace st) = None
  end.

(** A property of sessions that a method keeps, whether it returns or
    throws. *)
Definition keeps {A} (I : State → Prop) (m : M A) : Prop :=
  ∀ st, I st → I (final (m st)).

(** ** Sample data *)

Definition sampleConfig : Config :=
  mkConfig "account-1" None (Some "Hi there!") None None None
    false false false false false true.

(** Modelled from the spec: [areDatesEqual] of [./utils], which is not among
    the sources.  The spec has two send timestamps match "by equality of
    their timestamp representation"; a missing timestamp has none. *)
Definition areDatesEqual_spec (x y : option string) : bool :=
  match x, y with
  | Some a, Some b => bool_decide (a = b)
  | _, _ => false
  end.

(** Modelled from the spec: [isValidUuid] of [./utils], which is not among the
    sources; the spec asks for "a syntactically valid unique identifier".
    Here: 36 characters with dashes at the four usual places. *)
Definition isValidUuid_spec (s : string) : bool :=
  (String.length s =? 36)%nat
  && forallb (λ i, bool_decide (String.get i s = Some "-"%char)) [8; 13; 18; 23]%nat.

(** Two confirmed messages of an earlier conversation. *)
Definition earlierQuestion : Message :=
  mkMessage (Some "Is the shop open?") None (Some MessageType.customer)
    (Some "11111111-1111-1111-1111-111111111111")
    (Some "2021-02-27T08:00:00.000Z") (Some "2021-02-27T08:00:00.400Z") None.

Definition earlierAnswer : Message :=
  mkMessage (Some "Yes, until six.") None (Some MessageType.agent) None
    (Some "2021-02-27T08:05:00.000Z") (Some "2021-02-27T08:05:00.200Z") None.

(** The dates of the examples, in milliseconds since the epoch. *)
Definition sampleDates : list (string * Z) :=
  [("2021-02-27T08:00:00.400Z", 1614412800400%Z);
   ("2021-02-27T08:05:00.200Z", 1614413100200%Z);
   ("2021-03-01T10:00:00.350Z", 1614592800350%Z)].

Fixpoint assoc (key : string) (table : list (string * Z)) : option Z :=
  match table with
  | [] => None
  | (k, v) :: table' => if bool_decide (k = key) then Some v else assoc key table'
  end.

(** A world for examples: a backend that knows one customer by the external
    id "ext-42", holds one conversation of the customer "1111...", its two
    messages listed newest first, and fails validation calls (an older
    server); a clock that advances by a second at its first reading; dates
    looked up in [sampleDates]. *)
Definition sampleWorld : World :=
  {| areDatesEqual := areDatesEqual_spec;
     isValidUuid := isValidUuid_spec;
     dateValue := λ d, d ≫= λ s, assoc s sampleDates;
     clock := λ n, match n with
                   | 0 => "2021-03-01T10:00:00.000Z"
                   | _ => "2021-03-01T10:00:01.000Z"
                   end;
     api_fetchWidgetSettings := λ _ _, Throw;
     api_isValidCustomer := λ _ _, Throw;
     api_findCustomerByExternalId := λ _ externalId _ _,
       if bool_decide (externalId = "ext-42")
       then Normal (Some "33333333-3333-3333-3333-333333333333")
       else Normal None;
     api_fetchCustomerConversations := λ _ id,
       if bool_decide (id = "11111111-1111-1111-1111-111111111111")
       then Normal [mkConversation "conversation-7"
                      (Value [earlierAnswer; earlierQuestion])]
       else Normal [];
     api_createNewCustomer := λ _ _, Normal "22222222-2222-2222-2222-222222222222";
     api_updateCustomerMetadata := λ _ id _, Normal id;
     api_createNewConversation := λ _ _, Normal "conversation-1";
     engineSort := λ l, l |}.

(** A pending (optimistic) customer message and its confirmation. *)
Definition pendingMessage (text sent : string) : Message :=
  mkMessage (Some text) None (Some MessageType.customer) None (Some sent) None None.

Definition confirmedMessage (text sent created : string) : Message :=
  mkMessage (Some text) None (Some MessageType.customer) None (Some sent)
    (Some created) None.



(** The greeting the sample configuration yields, as a transcript entry. *)
Definition sampleGreeting : Message :=
  mkMessage (Some "Hi there!") None (Some MessageType.bot) (Some "bot") None
    (Some "2021-03-01T09:59:00.000Z") None.

(** A configuration whose generator returns the same greeting whatever
    overrides it is given. *)
Definition generatorConfig : Config :=
  mkConfig "account-1" None None None None (Some (λ _, [sampleGreeting]))
    false false false false false true.

(** A session whose transcript is the greeting followed by one pending
    message. *)
Definition sessionWithPending : State :=
  set_messages [sampleGreeting; pendingMessage "hi" "2021-03-01T10:00:00.000Z"]
    (newSession sampleConfig false None).

(** A method that never throws. *)
Definition returns {A} (m : M A) : Prop :=
  ∀ st, ∃ a, result (m st) = Normal a.

(** The session [st] differs from [st0] by its trace and its count of
    channels at most. *)
Definition sameFields (st0 st : State) : Prop :=
  config st = config st0 ∧ debugModeEnabled st = debugModeEnabled st0
  ∧ customerId st = customerId st0 ∧ conversationId st = conversationId st0
  ∧ messages st = messages st0 ∧ settings st = settings st0
  ∧ channel st = channel st0 ∧ clock_reads st = clock_reads st0.

(** The session once [fetchLatestConversation] has the backend's answer for
    [customer]: two debug lines and the call, in the trace. *)
Definition fetched (customer : string) (st : State) : State :=
  logged "Found existing conversations:"
    (set_trace
       (ApiFetchCustomerConversations customer
        :: trace (logged "Fetching conversations for customer:" st))
       (logged "Fetching conversations for customer:" st)).

(** The fields of [st] are those of [st0], and nothing was stored,
    dispatched or said of the transcript since. *)
Definition untouched (st0 st : State) : Prop :=
  sameFields st0 st
  ∧ lastStored (trace st) = lastStored (trace st0)
  ∧ lastDispatched (trace st) = lastDispatched (trace st0)
  ∧ lastMessagesUpdated (trace st) = lastMessagesUpdated (trace st0).

(** The settings [start] applies: what the backend answers once the session
    is connected, or the empty settings. *)
Definition settingsAtStart (W : World) (st : State) : WidgetSettings :=
  match api_fetchWidgetSettings W (trace (final (connect st))) (accountId (config st)) with
  | Normal (Some fetched) => fetched
  | _ => noSettings
  end.

(** The customer id of the session does not stand validation: it is missing
    or empty, or [isValidUuid] refuses it, or the backend does. *)
Definition unacceptable (W : World) (id : option string) : Prop :=
  JS.truthy id = false
  ∨ ∃ s, id = Some s
         ∧ (isValidUuid W s = false ∨ ∀ h, api_isValidCustomer W h s = Normal false).

(** A message [sendNewMessage] does not reject: a body that is not white
    space only, or at least one attachment. *)
Definition sendable (message : Message) : Prop :=
  (∃ text, body message = Some text ∧ JS.whitespaceOnly text = false)
  ∨ (∃ f fs, file_ids message = Some (f :: fs)).

(** The entry [sendNewMessage] adds to the transcript of [st], and the
    payload it pushes for a session whose customer id is [customer]. *)
Definition optimisticEntry (W : World) (st : State) (message : Message) : Message :=
  mkMessage (Some (default "" (body message))) (file_ids message)
    (Some MessageType.customer) (customerId st)
    (Some (clock W (clock_reads st))) (created_at message) (seen_at message).

Definition pushedPayload (W : World) (st : State) (customer : option string)
    (message : Message) : Message :=
  mkMessage (Some (default "" (body message))) (file_ids message)
    (type message) customer
    (Some (clock W (clock_reads st))) (created_at message) (seen_at message).

(** The metadata [initializeNewConversation] sends for a given email. *)
Definition metadataWith (cfg : Config) (email_arg : option string) : CustomerMetadata :=
  let customer := default noMetadata (cfg_customer cfg) in
  if JS.truthy email_arg
  then mkCustomerMetadata (name customer) email_arg (external_id customer) (host customer)
  else customer.

(** The message carries a seen timestamp. *)
Definition seen (m : Message) : Prop := JS.truthy (seen_at m) = true.

(** U+00A0, the no-break space. *)
Definition nbsp : string := String (ascii_of_nat 194) (String (ascii_of_nat 160) "").

(** A visitor's first message, and a session's life around it. *)
Definition hiMessage : Message :=
  mkMessage (Some "hi") None None None None None None.

Definition sampleCalls : list Call :=
  [CallStart;
   CallSendNewMessage hiMessage None;
   DeliverShout (confirmedMessage "hi" "2021-03-01T10:00:01.000Z"
                   "2021-03-01T10:00:01.350Z");
   CallMarkMessagesAsSeen;
   CallDisconnect].

(** The calls and deliveries that work on the session alone.  The delivery
    of ['conversation:created'] is not one of them: the timer it sets runs
    [fetchLatestConversation]. *)
Definition localCall (call : Call) : bool :=
  match call with
  | CallConnect | CallDisconnect | CallSetWidgetSettings _ | CallSetCustomerId _
  | CallSetConversationId _ | CallSetMessages _ | CallMarkMessagesAsSeen
  | DeliverShout _ => true
  | _ => false
  end.

(** The sample world with a backend that acknowledges every customer id. *)
Definition acknowledgingWorld : World :=
  mkWorld (areDatesEqual sampleWorld) (isValidUuid sampleWorld) (dateValue sampleWorld)
    (clock sampleWorld) (api_fetchWidgetSettings sampleWorld)
    (λ _ _, Normal true) (api_findCustomerByExternalId sampleWorld)
    (api_fetchCustomerConversations sampleWorld) (api_createNewCustomer sampleWorld)
    (api_updateCustomerMetadata sampleWorld) (api_createNewConversation sampleWorld)
    (engineSort sampleWorld).

(** The sample world with a backend that cannot be reached. *)
Definition unreachableWorld : World :=
  mkWorld (areDatesEqual sampleWorld) (isValidUuid sampleWorld) (dateValue sampleWorld)
    (clock sampleWorld) (λ _ _, Throw) (λ _ _, Throw) (λ _ _ _ _, Throw)
    (λ _ _, Throw) (λ _ _, Throw) (λ _ _ _, Throw) (λ _ _, Throw)
    (engineSort sampleWorld).

(** The sample world with a backend whose one conversation has no message. *)
Definition worldWithEmptyConversation : World :=
  mkWorld (areDatesEqual sampleWorld) (isValidUuid sampleWorld) (dateValue sampleWorld)
    (clock sampleWorld) (api_fetchWidgetSettings sampleWorld)
    (api_isValidCustomer sampleWorld) (api_findCustomerByExternalId sampleWorld)
    (λ _ _, Normal [mkConversation "conversation-9" (Value [])])
    (api_createNewCustomer sampleWorld)
    (api_updateCustomerMetadata sampleWorld) (api_createNewConversation sampleWorld)
    (engineSort sampleWorld).

(** A configuration with an away message and no greeting, and one whose
    customer has an external id. *)
Definition awayConfig : Config :=
  mkConfig "account-1" None None (Some "Back on Monday.") None None
    false false false false false true.

Definition identifiedConfig : Config :=
  mkConfig "account-1" None (Some "Hi there!") None
    (Some (mkCustomerMetadata None (Some "a@example.com") (Some "ext-1") None)) None
    false false false false false true.

(** A session that found a customer id in the storage. *)
Definition returningSession : State :=
  newSession sampleConfig false (Some "11111111-1111-1111-1111-111111111111").

(** The sample world with a backend that cannot create conversations. *)
Definition worldWithoutConversations : World :=
  mkWorld (areDatesEqual sampleWorld) (isValidUuid sampleWorld) (dateValue sampleWorld)
    (clock sampleWorld) (api_fetchWidgetSettings sampleWorld)
    (api_isValidCustomer sampleWorld) (api_findCustomerByExternalId sampleWorld)
    (api_fetchCustomerConversations sampleWorld) (api_createNewCustomer sampleWorld)
    (api_updateCustomerMetadata sampleWorld) (λ _ _, Throw)
    (engineSort sampleWorld).

(** The session of a visitor whose first message has gone out. *)
Definition sessionInConversation : State :=
  session sampleWorld [CallSendNewMessage hiMessage None]
    (newSession sampleConfig false None).

(** * Properties *)

(** ** Running a method *)

Section Running.

Variable W : World.

(** A step that completes hands its value and state to what follows. *)
Lemma bind_normal {A B} (m : M A) (f : A → M B) st a st' :
  m st = (Normal a, st') → (m ≫= f) st = f a st'.
Proof. intros Hm. unfold mbind, M_bind. rewrite Hm. reflexivity. Qed.

Lemma setMessages_messages msgs st :
  messages (final (setMessages msgs st)) = msgs.
Proof.
  unfold setMessages, final, mbind, M_bind, modify, get, when; simpl.
  destruct (onMessagesUpdated (config st)); reflexivity.
Qed.

Lemma setMessages_result msgs st :
  result (setMessages msgs st) = Normal tt.
Proof.
  unfold setMessages, result, mbind, M_bind, modify, get, when; simpl.
  destruct (onMessagesUpdated (config st)); reflexivity.
Qed.

Lemma handleMessageCreated_messages message st :
  messages (final (handleMessageCreated W message st))
  = reconcile W (messages st) message.
Proof.
  unfold handleMessageCreated, mbind, M_bind, get; simpl.
  apply setMessages_messages.
Qed.

End Running.

(** ** Reconciliation *)

Section Reconciliation.

Variable W : World.

(** What [Array.prototype.find] returns is the first entry that satisfies
    the predicate. *)
Lemma find_first {A} (f : A → bool) (l : list A) (x : A) :
  find f l = Some x →
  ∃ k, l !! k = Some x ∧ f x = true
       ∧ ∀ j y, j < k → l !! j = Some y → f y = false.
Proof.
  induction l as [|a l IH]; simpl; [discriminate|].
  destruct (f a) eqn:Hfa.
  - intros [= ->]. exists 0. repeat split; [assumption|]. intros j y Hj; lia.
  - intros Hfind. destruct (IH Hfind) as (k & Hk & Hfx & Hbefore).
    exists (S k). repeat split; [assumption..|].
    intros [|j] y Hj Hy; simpl in Hy.
    + congruence.
    + apply (Hbefore j); [lia | assumption].
Qed.

(** With a pending match [P] that the search settles on, the new transcript
    is the old one with [message] in place of every entry that carries the
    send timestamp of [P]. *)
Lemma reconcile_found msgs message i P :
  msgs !! i = Some P →
  isUnsent W message P = true →
  (∀ j Q, j < i → msgs !! j = Some Q → isUnsent W message Q = true →
          sent_at Q = sent_at P) →
  reconcile W msgs message
  = map (λ m, if JS.strict_eq (sent_at m) (sent_at P) then message else m) msgs.
Proof.
  intros Hi HP Hearlier. unfold reconcile.
  destruct (find (isUnsent W message) msgs) as [unsent|] eqn:Hfind.
  - destruct (find_first _ _ _ Hfind) as (k & Hk & Hunsent & Hbefore).
    assert (sent_at unsent = sent_at P) as ->; [|reflexivity].
    destruct (lt_eq_lt_dec k i) as [[Hlt | ->] | Hgt].
    + eapply Hearlier; eassumption.
    + congruence.
    + rewrite (Hbefore i P Hgt Hi) in HP. discriminate.
  - exfalso. rewrite (find_none _ _ Hfind P) in HP; [discriminate|].
    apply list_elem_of_In, list_elem_of_lookup. eauto.
Qed.

Lemma reconcile_appended msgs message :
  (∀ P, P ∈ msgs → isUnsent W message P = false) →
  reconcile W msgs message = msgs ++ [message].
Proof.
  intros Hnone. unfold reconcile.
  destruct (find (isUnsent W message) msgs) as [unsent|] eqn:Hfind; [|reflexivity].
  apply find_some in Hfind as [Hin Hunsent].
  rewrite (Hnone unsent) in Hunsent; [discriminate|].
  apply list_elem_of_In, Hin.
Qed.


(** C2.  When no entry of the transcript is a pending entry matching the
    confirmed message [E], [handleMessageCreated] appends [E] at the end
    and the transcript is longer by exactly one. *)
Theorem handleMessageCreated_appends_unmatched st E :
  (∀ P, P ∈ messages st → isUnsent W E P = false) →
  messages (final (handleMessageCreated W E st)) = messages st ++ [E]
  ∧ length (messages (final (handleMessageCreated W E st)))
    = S (length (messages st)).
Proof.
  intros Hnone. rewrite handleMessageCreated_messages.
  rewrite (reconcile_appended _ _ Hnone), length_app. simpl. split; [reflexivity|lia].
Qed.

(** C3.  With two pending entries that carry the same send timestamp [t]
    and the bodies [a] and [b], the confirmation of the first replaces both:
    the transcript becomes twice the confirmed message, and the pending
    entry with body [b] is gone. *)
Theorem handleMessageCreated_merges_equal_timestamps st a b t created :
  areDatesEqual W (Some t) (Some t) = true →
  messages st = [pendingMessage a t; pendingMessage b t] →
  messages (final (handleMessageCreated W (confirmedMessage a t created) st))
  = [confirmedMessage a t created; confirmedMessage a t created]
  ∧ pendingMessage b t
    ∉ messages (final (handleMessageCreated W (confirmedMessage a t created) st)).
Proof.
  intros Hrefl Hmsgs. rewrite handleMessageCreated_messages, Hmsgs.
  assert (reconcile W [pendingMessage a t; pendingMessage b t]
            (confirmedMessage a t created)
          = [confirmedMessage a t created; confirmedMessage a t created]) as ->.
  { unfold reconcile. simpl. unfold isUnsent. simpl. rewrite Hrefl.
    rewrite bool_decide_eq_true_2 by reflexivity. simpl.
    unfold JS.strict_eq. rewrite bool_decide_eq_true_2 by reflexivity.
    reflexivity. }
  split; [reflexivity|].
  intros Hin. apply list_elem_of_In in Hin. simpl in Hin.
  destruct Hin as [H|[H|[]]]; discriminate H.
Qed.

(** Where [areDatesEqual] equates only identical timestamps, every matching
    entry carries the send timestamp of [E], and each of them is replaced. *)
Lemma handleMessageCreated_replaces_pending_exact st E i P :
  (∀ a b, areDatesEqual W a b = true → a = b) →
  messages st !! i = Some P →
  isUnsent W E P = true →
  messages (final (handleMessageCreated W E st)) !! i = Some E
  ∧ length (messages (final (handleMessageCreated W E st))) = length (messages st).
Proof.
  intros Hexact Hi HP. rewrite handleMessageCreated_messages.
  assert (∀ Q, isUnsent W E Q = true → sent_at Q = sent_at E) as Hsent.
  { intros Q HQ. unfold isUnsent in HQ.
    apply andb_true_iff in HQ as [HQ _]. apply andb_true_iff in HQ as [_ HQ].
    apply Hexact, HQ. }
  rewrite (reconcile_found _ _ _ P Hi HP).
  - split; [|apply length_map].
    rewrite list_lookup_fmap, Hi. simpl.
    unfold JS.strict_eq. rewrite bool_decide_eq_true_2; reflexivity.
  - intros j Q _ _ HQ. rewrite (Hsent Q HQ), (Hsent P HP). reflexivity.
Qed.

End Reconciliation.



Lemma handleMessageCreated_appends_unmatched_witness :
  let E := mkMessage (Some "How can I help?") None (Some MessageType.agent) None
             (Some "2021-03-01T10:02:00.000Z") (Some "2021-03-01T10:02:00.100Z") None in
  messages (final (handleMessageCreated sampleWorld E sessionWithPending))
  = messages sessionWithPending ++ [E]
  ∧ length (messages (final (handleMessageCreated sampleWorld E sessionWithPending)))
    = S (length (messages sessionWithPending)).
Proof.
  intros E.
  apply (handleMessageCreated_appends_unmatched sampleWorld sessionWithPending E).
  intros P HP. apply list_elem_of_In in HP. simpl in HP.
  destruct HP as [<-|[<-|[]]]; vm_compute; reflexivity.
Defined.

Lemma handleMessageCreated_merges_equal_timestamps_witness :
  let t := "2021-03-01T10:00:00.000Z" in
  let st := set_messages [pendingMessage "yes" t; pendingMessage "no" t]
              (newSession sampleConfig false None) in
  let E := confirmedMessage "yes" t "2021-03-01T10:00:00.350Z" in
  messages (final (handleMessageCreated sampleWorld E st)) = [E; E]
  ∧ pendingMessage "no" t ∉ messages (final (handleMessageCreated sampleWorld E st)).
Proof.
  intros t st E.
  apply (handleMessageCreated_merges_equal_timestamps sampleWorld st "yes" "no" t
           "2021-03-01T10:00:00.350Z").
  - vm_compute. reflexivity.
  - reflexivity.
Defined.

(** ** White space *)

Section Trimming.

Lemma whiteSpace2_not1 a b : JS.whiteSpace2 a b = true → JS.whiteSpace1 a = false.
Proof.
  unfold JS.whiteSpace2, JS.whiteSpace1. cbv zeta.
  generalize (nat_of_ascii a) (nat_of_ascii b). intros x y.
  rewrite andb_true_iff, orb_false_iff, andb_false_iff,
    !Nat.eqb_eq, !Nat.leb_gt, Nat.eqb_neq. lia.
Qed.

Lemma whiteSpace3_not1 a b c : JS.whiteSpace3 a b c = true → JS.whiteSpace1 a = false.
Proof.
  unfold JS.whiteSpace3, JS.whiteSpace1. cbv zeta.
  generalize (nat_of_ascii a) (nat_of_ascii b) (nat_of_ascii c). intros x y z.
  rewrite !orb_true_iff, !andb_true_iff, orb_false_iff, andb_false_iff,
    !Nat.eqb_eq, !Nat.leb_gt, Nat.eqb_neq. lia.
Qed.

Lemma whiteSpace3_not2 a b c : JS.whiteSpace3 a b c = true → JS.whiteSpace2 a b = false.
Proof.
  unfold JS.whiteSpace3, JS.whiteSpace2. cbv zeta.
  generalize (nat_of_ascii a) (nat_of_ascii b) (nat_of_ascii c). intros x y z.
  rewrite !orb_true_iff, !andb_true_iff, andb_false_iff,
    !Nat.eqb_eq, !Nat.eqb_neq. lia.
Qed.

Lemma dropWhiteSpace_step l :
  JS.dropWhiteSpace l
  = match JS.afterWhiteSpace l with
    | Some l' => JS.dropWhiteSpace l'
    | None => l
    end.
Proof.
  destruct l as [|a [|b [|c l]]]; simpl; try reflexivity;
    repeat (match goal with |- context [if ?b then _ else _] => destruct b end;
            try reflexivity).
Qed.

Lemma dropWhiteSpaceReversed_step r :
  JS.dropWhiteSpaceReversed r
  = match JS.beforeWhiteSpace r with
    | Some r' => JS.dropWhiteSpaceReversed r'
    | None => r
    end.
Proof.
  destruct r as [|a [|b [|c r]]]; simpl; try reflexivity;
    repeat (match goal with |- context [if ?b then _ else _] => destruct b end;
            try reflexivity).
Qed.

Lemma blank_step l :
  JS.blank l
  = match l with
    | [] => true
    | _ => match JS.afterWhiteSpace l with
           | Some l' => JS.blank l'
           | None => false
           end
    end.
Proof.
  destruct l as [|a [|b [|c l]]]; simpl; try reflexivity;
    repeat (match goal with |- context [if ?b then _ else _] => destruct b end;
            try reflexivity).
Qed.

Lemma afterWhiteSpace_length l l' :
  JS.afterWhiteSpace l = Some l' → length l' < length l.
Proof.
  destruct l as [|a [|b [|c l]]]; simpl;
    repeat (match goal with |- context [if ?b then _ else _] => destruct b end);
    intros; simplify_eq; simpl; lia.
Qed.

Lemma beforeWhiteSpace_length r r' :
  JS.beforeWhiteSpace r = Some r' → length r' < length r.
Proof.
  destruct r as [|a [|b [|c r]]]; simpl;
    repeat (match goal with |- context [if ?b then _ else _] => destruct b end);
    intros; simplify_eq; simpl; lia.
Qed.

(** Induction on the characters of a byte list. *)
Lemma by_length {A} (P : list A → Prop) :
  (∀ l, (∀ l', length l' < length l → P l') → P l) → ∀ l, P l.
Proof.
  intros Hstep l. remember (length l) as n eqn:Hn.
  revert l Hn. induction n as [n IH] using lt_wf_ind. intros l ->.
  apply Hstep. intros l' Hl'. exact (IH _ Hl' l' eq_refl).
Qed.

Lemma blank_dropWhiteSpace l : JS.blank l = true ↔ JS.dropWhiteSpace l = [].
Proof.
  induction l as [l IH] using by_length.
  rewrite blank_step, dropWhiteSpace_step.
  destruct l as [|a l1]; [done|].
  destruct (JS.afterWhiteSpace (a :: l1)) as [l'|] eqn:Hafter.
  - apply IH, (afterWhiteSpace_length _ _ Hafter).
  - split; discriminate.
Qed.

(** What [trimStart] leaves does not start with white space. *)
Lemma dropWhiteSpace_done l : JS.afterWhiteSpace (JS.dropWhiteSpace l) = None.
Proof.
  induction l as [l IH] using by_length.
  rewrite dropWhiteSpace_step.
  destruct (JS.afterWhiteSpace l) as [l'|] eqn:Hafter; [|exact Hafter].
  apply IH, (afterWhiteSpace_length _ _ Hafter).
Qed.

Lemma afterWhiteSpace_app l l' k :
  JS.afterWhiteSpace l = Some l' → JS.afterWhiteSpace (l ++ k) = Some (l' ++ k).
Proof.
  destruct l as [|a [|b [|c l]]]; simpl;
    repeat (match goal with |- context [if ?b then _ else _] => destruct b end);
    intros; simplify_eq; reflexivity.
Qed.

Lemma blank_app l k : JS.blank l = true → JS.blank k = true → JS.blank (l ++ k) = true.
Proof.
  induction l as [l IH] using by_length. intros Hl Hk.
  destruct l as [|a l1]; [exact Hk|].
  rewrite blank_step in Hl.
  destruct (JS.afterWhiteSpace (a :: l1)) as [l'|] eqn:Hafter; [|discriminate].
  rewrite blank_step, (afterWhiteSpace_app _ _ k Hafter). simpl.
  apply IH; [apply (afterWhiteSpace_length _ _ Hafter) | assumption..].
Qed.

(** A white-space character taken from the end is one at the end. *)
Lemma beforeWhiteSpace_blank r r' :
  JS.beforeWhiteSpace r = Some r' →
  ∃ w, rev r = rev r' ++ w ∧ JS.blank w = true.
Proof.
  destruct r as [|c [|b [|a r]]]; simpl; [discriminate|..].
  - destruct (JS.whiteSpace1 c) eqn:H1; [|discriminate].
    intros [= <-]. exists [c]. simpl. rewrite H1. done.
  - destruct (JS.whiteSpace1 c) eqn:H1.
    + intros [= <-]. exists [c]. simpl. rewrite H1. done.
    + destruct (JS.whiteSpace2 b c) eqn:H2; [|discriminate].
      intros [= <-]. exists [b; c]. simpl.
      rewrite (whiteSpace2_not1 _ _ H2), H2. done.
  - destruct (JS.whiteSpace1 c) eqn:H1.
    + intros [= <-]. exists [c]. simpl. rewrite H1. done.
    + destruct (JS.whiteSpace2 b c) eqn:H2.
      * intros [= <-]. exists [b; c]. simpl.
        rewrite (whiteSpace2_not1 _ _ H2), H2, <- !app_assoc. done.
      * destruct (JS.whiteSpace3 a b c) eqn:H3; [|discriminate].
        intros [= <-]. exists [a; b; c]. simpl.
        rewrite (whiteSpace3_not1 _ _ _ H3), (whiteSpace3_not2 _ _ _ H3), H3,
          <- !app_assoc. done.
Qed.

Lemma dropWhiteSpaceReversed_blank r :
  JS.dropWhiteSpaceReversed r = [] → JS.blank (rev r) = true.
Proof.
  induction r as [r IH] using by_length.
  rewrite dropWhiteSpaceReversed_step.
  destruct (JS.beforeWhiteSpace r) as [r'|] eqn:Hbefore.
  - intros Hr'. destruct (beforeWhiteSpace_blank _ _ Hbefore) as (w & -> & Hw).
    apply blank_app; [|exact Hw].
    apply IH; [apply (beforeWhiteSpace_length _ _ Hbefore) | exact Hr'].
  - intros ->. reflexivity.
Qed.

Lemma string_of_list_ascii_length l : String.length (String.string_of_list_ascii l) = length l.
Proof. induction l as [|a l IH]; simpl; congruence. Qed.

Lemma trim_whitespaceOnly s :
  JS.whitespaceOnly s = true → String.length (JS.trim s) = 0.
Proof.
  unfold JS.whitespaceOnly, JS.trim, JS.trimEnd, JS.trimStart.
  intros Hs%blank_dropWhiteSpace. rewrite Hs. reflexivity.
Qed.

Lemma trim_nonblank s :
  JS.whitespaceOnly s = false → (String.length (JS.trim s) =? 0) = false.
Proof.
  unfold JS.whitespaceOnly, JS.trim, JS.trimEnd, JS.trimStart. intros Hs.
  rewrite String.list_ascii_of_string_of_list_ascii, string_of_list_ascii_length, length_rev.
  apply Nat.eqb_neq. intros Hnil%nil_length_inv.
  apply dropWhiteSpaceReversed_blank in Hnil. rewrite rev_involutive in Hnil.
  apply blank_dropWhiteSpace in Hnil.
  pose proof (dropWhiteSpace_done (String.list_ascii_of_string s)) as Hdone.
  rewrite dropWhiteSpace_step, Hdone in Hnil.
  apply blank_dropWhiteSpace in Hnil. congruence.
Qed.

End Trimming.

(** ** Sending *)

Section Sending.

Variable W : World.

(** C4.  [sendNewMessage] with a body that is missing, empty or made of
    white space only, and with attachment ids missing or empty, returns
    at once and leaves the session as it was: same transcript, same customer
    and conversation, and a trace with no new event (no backend call, no
    channel push, no callback). *)
Theorem sendNewMessage_rejects_empty st message email_arg :
  (body message = None
   ∨ ∃ text, body message = Some text ∧ JS.whitespaceOnly text = true) →
  (file_ids message = None ∨ file_ids message = Some []) →
  sendNewMessage W message email_arg st = (Normal tt, st).
Proof.
  intros Hbody Hfiles. unfold sendNewMessage, mbind, M_bind, get; simpl.
  assert ((String.length (default "" (body message)) =? 0)
          || (String.length (JS.trim (default "" (body message))) =? 0) = true)
    as ->.
  { destruct Hbody as [-> | (text & -> & Hws)]; simpl; [reflexivity|].
    rewrite (trim_whitespaceOnly _ Hws). apply orb_true_r. }
  assert ((length (default [] (file_ids message)) =? 0) = true) as ->.
  { destruct Hfiles as [-> | ->]; reflexivity. }
  reflexivity.
Qed.

End Sending.

Lemma sendNewMessage_rejects_empty_witness :
  sendNewMessage sampleWorld
    (mkMessage (Some (" " +:+ nbsp)) (Some []) None None None None None) None
    sessionWithPending
  = (Normal tt, sessionWithPending).
Proof.
  apply (sendNewMessage_rejects_empty sampleWorld sessionWithPending).
  - right. exists (" " +:+ nbsp). split; reflexivity.
  - right. reflexivity.
Defined.

(** ** Customer identity *)

Section Identity.

Variable W : World.

(** C5.  [isValidCustomerId] answers [false] for an id that is missing,
    empty or rejected by [isValidUuid], and the session is left as it was: in
    particular the trace has no backend call.  For a non-empty id that
    [isValidUuid] accepts, when the backend's validation call throws, the
    answer is [true]; the trace then holds that one call and the two
    warnings. *)
Theorem isValidCustomerId_malformed_or_backend_failure st id :
  ((id = None ∨ id = Some "" ∨ ∃ s, id = Some s ∧ isValidUuid W s = false) →
   isValidCustomerId W id st = (Normal false, st))
  ∧ (∀ s, id = Some s → s ≠ "" → isValidUuid W s = true →
          api_isValidCustomer W (trace st) s = Throw →
          result (isValidCustomerId W id st) = Normal true
          ∧ trace (final (isValidCustomerId W id st))
            = ConsoleWarn "You might be on an older version of Papercups."
              :: ConsoleWarn "Failed to validate customer ID."
              :: ApiIsValidCustomer s :: trace st).
Proof.
  split.
  - intros [-> | [-> | (s & -> & Hbad)]]; [reflexivity..|].
    unfold isValidCustomerId. rewrite Hbad. simpl.
    destruct (negb _ || _); reflexivity.
  - intros s -> Hne Huuid Hthrow. unfold isValidCustomerId.
    assert (negb (JS.truthy (Some s)) || (String.length s =? 0) = false) as ->.
    { destruct s; [congruence | reflexivity]. }
    rewrite Huuid. simpl.
    unfold try_catch, isValidCustomer, await, result, final. rewrite Hthrow.
    split; reflexivity.
Qed.

(** C6.  [checkForExistingCustomer]: without metadata, or with metadata
    that has no external id, the answer is the candidate id and nothing is
    looked up.  With an external id the backend is asked: a match that
    differs from the candidate is the answer, and without a match the answer
    is [null], whatever the candidate. *)
Theorem checkForExistingCustomer_cases st metadata candidate :
  ((metadata = None
    ∨ ∃ md, metadata = Some md ∧ JS.truthy (external_id md) = false) →
   checkForExistingCustomer W metadata candidate st = (Normal candidate, st))
  ∧ (∀ md externalId found,
       metadata = Some md → external_id md = Some externalId →
       externalId ≠ "" →
       api_findCustomerByExternalId W (trace st) externalId (email md) (host md)
       = Normal found →
       (JS.truthy found = true → found ≠ candidate →
        result (checkForExistingCustomer W metadata candidate st) = Normal found)
       ∧ (JS.truthy found = false →
          result (checkForExistingCustomer W metadata candidate st) = Normal None)).
Proof.
  split.
  - intros [-> | (md & -> & Hnone)]; [reflexivity|].
    unfold checkForExistingCustomer. rewrite Hnone. reflexivity.
  - intros md externalId found -> Hext Hne Hfound.
    unfold checkForExistingCustomer, findCustomerByMetadata. rewrite Hext.
    assert (JS.truthy (Some externalId) = true) as ->.
    { destruct externalId; [congruence | reflexivity]. }
    simpl. unfold mbind, M_bind, findCustomerByExternalId, await, result.
    rewrite Hfound. simpl. split.
    + intros Hmatch Hdiff. rewrite Hmatch. simpl.
      unfold JS.strict_eq. rewrite bool_decide_eq_false_2 by assumption.
      reflexivity.
    + intros Hnomatch. rewrite Hnomatch. reflexivity.
Qed.

End Identity.

Lemma isValidCustomerId_malformed_or_backend_failure_witness :
  let st := newSession sampleConfig false None in
  isValidCustomerId sampleWorld (Some "not-a-uuid") st = (Normal false, st)
  ∧ result (isValidCustomerId sampleWorld
              (Some "11111111-1111-1111-1111-111111111111") st) = Normal true.
Proof.
  intros st. split.
  - apply (proj1 (isValidCustomerId_malformed_or_backend_failure sampleWorld st
                    (Some "not-a-uuid"))).
    right. right. exists "not-a-uuid". split; [reflexivity | vm_compute; reflexivity].
  - apply (proj2 (isValidCustomerId_malformed_or_backend_failure sampleWorld st
                    (Some "11111111-1111-1111-1111-111111111111"))
             "11111111-1111-1111-1111-111111111111").
    + reflexivity.
    + discriminate.
    + vm_compute. reflexivity.
    + reflexivity.
Defined.

Lemma checkForExistingCustomer_cases_witness :
  let st := newSession sampleConfig false None in
  let cached := Some "11111111-1111-1111-1111-111111111111" in
  let known := mkCustomerMetadata None (Some "a@example.com") (Some "ext-42") None in
  let unknown := mkCustomerMetadata None (Some "b@example.com") (Some "ext-7") None in
  checkForExistingCustomer sampleWorld (Some noMetadata) cached st = (Normal cached, st)
  ∧ result (checkForExistingCustomer sampleWorld (Some known) cached st)
    = Normal (Some "33333333-3333-3333-3333-333333333333")
  ∧ result (checkForExistingCustomer sampleWorld (Some unknown) cached st)
    = Normal None.
Proof.
  intros st cached known unknown. split; [|split].
  - apply (proj1 (checkForExistingCustomer_cases sampleWorld st (Some noMetadata) cached)).
    right. exists noMetadata. split; reflexivity.
  - apply (proj2 (checkForExistingCustomer_cases sampleWorld st (Some known) cached)
             known "ext-42" (Some "33333333-3333-3333-3333-333333333333")).
    + reflexivity.
    + reflexivity.
    + discriminate.
    + vm_compute. reflexivity.
    + reflexivity.
    + discriminate.
  - apply (proj2 (checkForExistingCustomer_cases sampleWorld st (Some unknown) cached)
             unknown "ext-7" None).
    + reflexivity.
    + reflexivity.
    + discriminate.
    + vm_compute. reflexivity.
    + reflexivity.
Defined.

(** ** Conversation channels *)

Section Channels.

Lemma suffix_of_cons_inv {A} (l tr : list A) (e : A) :
  l `suffix_of` e :: tr → l = e :: tr ∨ l `suffix_of` tr.
Proof.
  intros [[|x k] Hk]; simpl in Hk.
  - left. congruence.
  - right. exists k. congruence.
Qed.

(** One more event keeps the history free of double joins when the event
    itself does not create one. *)
Lemma neverTwoJoined_cons e tr :
  neverTwoJoined tr →
  length (joinedConversations (e :: tr)) ≤ 1 →
  (∀ c, e = ChannelJoin c → isConversationChannel c = true →
        joinedConversations tr = []) →
  neverTwoJoined (e :: tr).
Proof.
  intros Hold Hlen Hjoin tr' [-> | Hsuffix]%suffix_of_cons_inv.
  - split; [assumption|]. intros c older [= -> ->]. apply Hjoin. reflexivity.
  - apply Hold, Hsuffix.
Qed.

Lemma neverTwoJoined_nil : neverTwoJoined [].
Proof.
  intros tr' Hsuffix. apply suffix_nil_inv in Hsuffix as ->.
  split; [simpl; lia | discriminate].
Qed.

Lemma joinedConversations_quiet e tr :
  quiet e → joinedConversations (e :: tr) = joinedConversations tr.
Proof.
  destruct e; simpl; intros Hq; try reflexivity; [|destruct Hq].
  rewrite Hq. reflexivity.
Qed.

Lemma neverTwoJoined_quiet e tr :
  quiet e → neverTwoJoined tr → neverTwoJoined (e :: tr).
Proof.
  intros Hq Hold. apply neverTwoJoined_cons; [assumption| |].
  - rewrite (joinedConversations_quiet _ _ Hq).
    apply (Hold tr). reflexivity.
  - intros c -> Hconv. simpl in Hq. congruence.
Qed.

(** Leaving the channel the session holds leaves nothing joined. *)
Lemma holdsJoined_leave st c :
  holdsJoined st → channel st = Some c →
  joinedConversations (ChannelLeave c :: trace st) = [].
Proof.
  intros [Hnone | (c' & Hc' & Hone)] Hc; simpl.
  - rewrite Hnone. reflexivity.
  - rewrite Hone. assert (c' = c) as -> by congruence.
    rewrite filter_cons_False by (intros H; apply H; reflexivity). reflexivity.
Qed.

Lemma holdsJoined_none st :
  holdsJoined st → channel st = None → joinedConversations (trace st) = [].
Proof. intros [Hnone | (c & Hc & _)] Hch; [assumption | congruence]. Qed.

(** The events [joinConversationChannel] adds once nothing is joined. *)
Lemma neverTwoJoined_join c debug tr :
  isConversationChannel c = true →
  neverTwoJoined tr → joinedConversations tr = [] →
  neverTwoJoined
    (ChannelJoin c :: ChannelOn c "shout" :: SocketChannel c
       :: (if debug : bool then ConsoleDebug "Joining channel:" :: tr else tr))
  ∧ joinedConversations
      (ChannelJoin c :: ChannelOn c "shout" :: SocketChannel c
         :: (if debug then ConsoleDebug "Joining channel:" :: tr else tr))
    = [c].
Proof.
  intros Hconv Hold Hnone.
  set (tr0 := if debug then ConsoleDebug "Joining channel:" :: tr else tr).
  assert (neverTwoJoined tr0 ∧ joinedConversations tr0 = []) as [Hold0 Hnone0].
  { unfold tr0. destruct debug; [|split; assumption].
    split; [apply neverTwoJoined_quiet; [exact I | assumption] | assumption]. }
  assert (joinedConversations (ChannelOn c "shout" :: SocketChannel c :: tr0) = [])
    as Hnone2 by exact Hnone0.
  split.
  - apply neverTwoJoined_cons.
    + do 2 (apply neverTwoJoined_quiet; [exact I|]). assumption.
    + simpl. rewrite Hconv, Hnone0. simpl. lia.
    + intros _ _ _. exact Hnone2.
  - simpl. rewrite Hconv, Hnone0. reflexivity.
Qed.

Lemma setConversationId_result conversation st :
  result (setConversationId conversation st) = Normal tt.
Proof.
  destruct st as [cfg debug customer conv msgs sett [old|] made reads tr];
    destruct debug, (onSetConversationId cfg) eqn:Hcallback;
    unfold setConversationId, joinConversationChannel, logger_debug, socket_channel,
      result, mbind, M_bind, get, modify, emit, when; simpl;
    rewrite Hcallback; reflexivity.
Qed.

Lemma setConversationId_joins conversation st :
  neverTwoJoined (trace st) → holdsJoined st →
  neverTwoJoined (trace (final (setConversationId conversation st)))
  ∧ holdsJoined (final (setConversationId conversation st)).
Proof.
  intros Hold Hholds.
  set (c := mkChannel (channels_made st) ConversationChannel
              ("conversation:" +:+ conversation) (JS.or (customerId st) None)).
  assert (∃ tr, neverTwoJoined tr ∧ joinedConversations tr = []
                ∧ ∃ called : bool,
                    trace (final (setConversationId conversation st))
                    = (if called then [OnSetConversationId conversation] else [])
                      ++ ChannelJoin c :: ChannelOn c "shout" :: SocketChannel c
                      :: (if debugModeEnabled st
                          then ConsoleDebug "Joining channel:" :: tr else tr)
                    ∧ channel (final (setConversationId conversation st)) = Some c)
    as (tr & Htr & Hnone & called & Htrace & Hchannel).
  { assert (∀ tr, ∃ called : bool,
              (match channel st with
               | Some old => ChannelLeave old :: trace st
               | None => trace st
               end) = tr →
              trace (final (setConversationId conversation st))
              = (if called then [OnSetConversationId conversation] else [])
                ++ ChannelJoin c :: ChannelOn c "shout" :: SocketChannel c
                :: (if debugModeEnabled st
                    then ConsoleDebug "Joining channel:" :: tr else tr)
              ∧ channel (final (setConversationId conversation st)) = Some c)
      as Hrun.
    { intros tr0. exists (onSetConversationId (config st)). intros <-. subst c.
      destruct st as [cfg debug customer conv msgs sett [old|] made reads tr];
        destruct debug, (onSetConversationId cfg) eqn:Hcallback;
        unfold setConversationId, joinConversationChannel, logger_debug,
          socket_channel, final, mbind, M_bind, get, modify, emit, when; simpl;
        rewrite Hcallback; split; reflexivity. }
    destruct (channel st) as [old|] eqn:Hch.
    - exists (ChannelLeave old :: trace st). split; [|split].
      + apply neverTwoJoined_cons; [assumption| |discriminate].
        rewrite (holdsJoined_leave _ _ Hholds Hch). simpl. lia.
      + apply (holdsJoined_leave _ _ Hholds Hch).
      + destruct (Hrun (ChannelLeave old :: trace st)) as [called Hcalled].
        exists called. apply Hcalled. reflexivity.
    - exists (trace st). split; [assumption|split].
      + apply (holdsJoined_none _ Hholds Hch).
      + destruct (Hrun (trace st)) as [called Hcalled].
        exists called. apply Hcalled. reflexivity. }
  destruct (neverTwoJoined_join c (debugModeEnabled st) tr eq_refl Htr Hnone)
    as [Hnever Hjoined].
  rewrite Htrace. split.
  - destruct called; simpl; [apply neverTwoJoined_quiet; [exact I|]|]; exact Hnever.
  - right. exists c. split; [assumption|].
    rewrite Htrace. destruct called; exact Hjoined.
Qed.

(** The events of one call: the channel held before is left, and only then
    (later in time, so nearer the head of the trace) the new one is joined. *)
Lemma setConversationId_leaves_then_joins conversation st old :
  channel st = Some old →
  ∃ c later between,
    trace (final (setConversationId conversation st))
    = later ++ ChannelJoin c :: between ++ ChannelLeave old :: trace st
    ∧ channel (final (setConversationId conversation st)) = Some c
    ∧ chan_topic c = "conversation:" +:+ conversation.
Proof.
  intros Hold.
  destruct st as [cfg debug customer conv msgs sett held made reads tr].
  simpl in Hold. subst held.
  set (c := mkChannel made ConversationChannel ("conversation:" +:+ conversation)
              (JS.or customer None)).
  exists c, (if onSetConversationId cfg then [OnSetConversationId conversation] else []),
    (ChannelOn c "shout" :: SocketChannel c
       :: if debug then [ConsoleDebug "Joining channel:"] else []).
  destruct debug, (onSetConversationId cfg) eqn:Hcallback;
    unfold setConversationId, joinConversationChannel, logger_debug, socket_channel,
      final, mbind, M_bind, get, modify, emit, when; simpl;
    rewrite Hcallback; repeat split; reflexivity.
Qed.

(** C7.  In a session that never had two conversation channels joined at
    once and whose joined conversation channel, if any, is the one it holds:
    a call of [setConversationId] leaves the channel held before it joins the
    new one; and any sequence of such calls completes and keeps both
    properties, so that at every point of the resulting trace at most one
    conversation channel is joined, and at every join of a conversation
    channel none is joined any more. *)
Theorem setConversationId_at_most_one_channel ids st :
  neverTwoJoined (trace st) → holdsJoined st →
  (∀ id old, channel st = Some old →
     ∃ c later between,
       trace (final (setConversationId id st))
       = later ++ ChannelJoin c :: between ++ ChannelLeave old :: trace st
       ∧ channel (final (setConversationId id st)) = Some c
       ∧ chan_topic c = "conversation:" +:+ id)
  ∧ result (setConversationIds ids st) = Normal tt
  ∧ neverTwoJoined (trace (final (setConversationIds ids st)))
  ∧ holdsJoined (final (setConversationIds ids st)).
Proof.
  intros Hold Hholds.
  split; [intros id old; apply setConversationId_leaves_then_joins|].
  revert st Hold Hholds. induction ids as [|id ids IH]; intros st Hold Hholds.
  - split; [reflexivity | split; assumption].
  - destruct (setConversationId_joins id st Hold Hholds) as [Hold1 Hholds1].
    pose proof (setConversationId_result id st) as Hres.
    simpl. unfold mbind, M_bind.
    destruct (setConversationId id st) as [r st1] eqn:Hstep.
    unfold result, final in Hres, Hold1, Hholds1. simpl in Hres, Hold1, Hholds1.
    subst r. apply IH; assumption.
Qed.

End Channels.

Lemma setConversationId_at_most_one_channel_witness :
  let st := newSession sampleConfig true None in
  let ids := ["conversation-1"; "conversation-2"; "conversation-1"] in
  result (setConversationIds ids st) = Normal tt
  ∧ neverTwoJoined (trace (final (setConversationIds ids st)))
  ∧ holdsJoined (final (setConversationIds ids st)).
Proof.
  intros st ids.
  apply (proj2 (setConversationId_at_most_one_channel ids st
                  neverTwoJoined_nil (or_introl eq_refl))).
Defined.

(** ** Greeting policy *)

Section Greeting.

Lemma tick_0 st : tick 0 st = st.
Proof. destruct st; reflexivity. Qed.

Lemma tick_tick n m st : tick n (tick m st) = tick (n + m) st.
Proof. unfold tick; simpl. f_equal. lia. Qed.

(** The greeting policy always returns, and all it can change in the session
    is the count of clock readings. *)
Lemma getDefaultGreeting_runs W overrides st :
  ∃ g n, getDefaultGreeting W overrides st = (Normal g, tick n st).
Proof.
  unfold getDefaultGreeting, mbind, M_bind, get, now; simpl.
  destruct (setInitialMessage (config st)) as [generate|].
  - exists (generate overrides), 0. rewrite tick_0. reflexivity.
  - destruct (negb _ && negb _).
    + exists [], 0. rewrite tick_0. reflexivity.
    + eexists _, 1. reflexivity.
Qed.

(** What the policy returns depends on the configuration, the settings, the
    overrides and, unless the overrides carry a creation timestamp, the
    reading of the clock. *)
Lemma getDefaultGreeting_same W W' st st' overrides :
  config st = config st' → settings st = settings st' →
  clock W (clock_reads st) = clock W' (clock_reads st')
  ∨ is_Some (o_created_at overrides) →
  result (getDefaultGreeting W overrides st)
  = result (getDefaultGreeting W' overrides st').
Proof.
  intros Hcfg Hsettings Hclock.
  unfold getDefaultGreeting, result, mbind, M_bind, get, now; simpl.
  rewrite <- Hcfg.
  destruct (setInitialMessage (config st)) as [generate|]; [reflexivity|].
  rewrite <- Hsettings.
  destruct (negb _ && negb _); [reflexivity|]. simpl.
  destruct Hclock as [-> | [v Hv]]; [reflexivity|].
  unfold spread; simpl. rewrite Hv. reflexivity.
Qed.

Lemma getDefaultGreeting_none W st overrides :
  setInitialMessage (config st) = None →
  JS.truthy (greeting (config st)) = false →
  JS.truthy (ws_greeting (settings st)) = false →
  JS.truthy (awayMessage (config st)) = false →
  JS.truthy (away_message (settings st)) = false →
  getDefaultGreeting W overrides st = (Normal [], st).
Proof.
  intros Hgen Hg Hwg Ha Hwa.
  unfold getDefaultGreeting, mbind, M_bind, get, JS.or; simpl.
  rewrite Hgen, Hg, Ha, Hwg, Hwa. reflexivity.
Qed.

(** C8, as amended.  Two invocations of [getDefaultGreeting] with the same
    configuration, settings and overrides return the same sequence when the
    clock reads the same at both, or when the overrides carry a creation
    timestamp (the clock's reading is then overridden).  With no generator
    configured and neither a greeting nor an away message configured or
    fetched, the policy returns the empty sequence and changes nothing. *)
Theorem getDefaultGreeting_determined_with_clock W W' st st' overrides :
  config st = config st' → settings st = settings st' →
  (clock W (clock_reads st) = clock W' (clock_reads st')
   ∨ is_Some (o_created_at overrides) →
   result (getDefaultGreeting W overrides st)
   = result (getDefaultGreeting W' overrides st'))
  ∧ (setInitialMessage (config st) = None →
     JS.truthy (greeting (config st)) = false →
     JS.truthy (ws_greeting (settings st)) = false →
     JS.truthy (awayMessage (config st)) = false →
     JS.truthy (away_message (settings st)) = false →
     getDefaultGreeting W overrides st = (Normal [], st)).
Proof.
  intros Hcfg Hsettings. split.
  - apply getDefaultGreeting_same; assumption.
  - apply getDefaultGreeting_none.
Qed.

End Greeting.

(** C8, as stated, fails: in a session with a greeting configured, the
    invocation that follows another one, with the same configuration,
    settings and overrides, returns a greeting with another creation
    timestamp, the clock having moved on. *)
Lemma getDefaultGreeting_differs_across_invocations :
  let st1 := newSession sampleConfig false None in
  let st2 := final (getDefaultGreeting sampleWorld noOverrides st1) in
  config st1 = config st2 ∧ settings st1 = settings st2
  ∧ result (getDefaultGreeting sampleWorld noOverrides st1)
    ≠ result (getDefaultGreeting sampleWorld noOverrides st2).
Proof.
  intros st1 st2. split; [reflexivity|]. split; [reflexivity|].
  vm_compute. discriminate.
Qed.

Lemma getDefaultGreeting_determined_with_clock_witness :
  let st := newSession sampleConfig false None in
  let silent := mkConfig "account-1" None None (Some "") None None
                  false false false false false true in
  let pinned := mkOverrides None None None None None
                  (Some (Some "2021-02-27T08:00:00.000Z"))
                  (Some (Some "2021-02-27T08:00:00.000Z")) in
  result (getDefaultGreeting sampleWorld pinned st)
  = result (getDefaultGreeting sampleWorld pinned (tick 1 st))
  ∧ getDefaultGreeting sampleWorld noOverrides (newSession silent false None)
    = (Normal [], newSession silent false None).
Proof.
  intros st silent pinned. split.
  - apply (proj1 (getDefaultGreeting_determined_with_clock sampleWorld sampleWorld
                    st (tick 1 st) pinned eq_refl eq_refl)).
    right. eexists. reflexivity.
  - apply (proj2 (getDefaultGreeting_determined_with_clock sampleWorld sampleWorld
                    (newSession silent false None) (newSession silent false None)
                    noOverrides eq_refl eq_refl)); reflexivity.
Defined.

(** ** Marking messages as seen *)

Section Seen.

Variable W : World.

Lemma markSeen_runs m st :
  ∃ m' n, markSeen W m st = (Normal m', tick n st) ∧ markedSeen m m'.
Proof.
  unfold markSeen, markedSeen.
  destruct (JS.truthy (seen_at m)).
  - exists m, 0. rewrite tick_0. split; reflexivity.
  - eexists _, 1. split; [reflexivity|]. eexists. reflexivity.
Qed.

Lemma mapM_markSeen_runs l st :
  ∃ l' n, mapM (markSeen W) l st = (Normal l', tick n st) ∧ Forall2 markedSeen l l'.
Proof.
  revert st. induction l as [|m l IH]; intros st.
  - exists [], 0. rewrite tick_0. split; [reflexivity | constructor].
  - destruct (markSeen_runs m st) as (m' & n & Hm & Hmarked).
    destruct (IH (tick n st)) as (l' & k & Hl & Hall).
    exists (m' :: l'), (k + n). split; [|constructor; assumption].
    simpl. unfold mbind, M_bind. rewrite Hm, Hl, tick_tick. reflexivity.
Qed.

Lemma markMessagesAsSeen_runs st :
  result (markMessagesAsSeen W st) = Normal tt
  ∧ Forall2 markedSeen (messages st) (messages (final (markMessagesAsSeen W st))).
Proof.
  assert (∀ st1,
            let r := (current ← get messages;
                      marked ← mapM (markSeen W) current;
                      setMessages marked) st1 in
            result r = Normal tt ∧ Forall2 markedSeen (messages st1) (messages (final r)))
    as Hrest.
  { intros st1. unfold mbind, M_bind, get. simpl.
    destruct (mapM_markSeen_runs (messages st1) st1) as (l' & n & Hl & Hall).
    rewrite Hl. split.
    - apply setMessages_result.
    - rewrite setMessages_messages. assumption. }
  unfold markMessagesAsSeen.
  rewrite (bind_normal (get channel) _ st (channel st) st eq_refl).
  destruct (channel st) as [c|].
  - rewrite (bind_normal (emit (ChannelPush c "messages:seen" None)) _ st tt
               (set_trace (ChannelPush c "messages:seen" None :: trace st) st) eq_refl).
    exact (Hrest (set_trace (ChannelPush c "messages:seen" None :: trace st) st)).
  - rewrite (bind_normal (mret tt) _ st tt st eq_refl).
    exact (Hrest st).
Qed.

(** C10.  [markMessagesAsSeen] completes and replaces the transcript by one
    of the same length in which, position by position, a message that
    carried a seen timestamp is the same message, and a message that carried
    none is that message with a seen timestamp and every other field as it
    was. *)
Theorem markMessagesAsSeen_frame st :
  result (markMessagesAsSeen W st) = Normal tt
  ∧ length (messages (final (markMessagesAsSeen W st))) = length (messages st)
  ∧ ∀ i m, messages st !! i = Some m →
      ∃ m', messages (final (markMessagesAsSeen W st)) !! i = Some m'
            ∧ (JS.truthy (seen_at m) = true → m' = m)
            ∧ (JS.truthy (seen_at m) = false →
               ∃ t, m' = mkMessage (body m) (file_ids m) (type m) (customer_id m)
                           (sent_at m) (created_at m) (Some t)).
Proof.
  destruct (markMessagesAsSeen_runs st) as [Hres Hall].
  split; [assumption|]. split.
  - symmetry. apply (Forall2_length _ _ _ Hall).
  - intros i m Hi.
    destruct (Forall2_lookup_l _ _ _ _ _ Hall Hi) as (m' & Hm' & Hmarked).
    exists m'. split; [assumption|]. unfold markedSeen in Hmarked.
    split; intros Hseen; rewrite Hseen in Hmarked; assumption.
Qed.

End Seen.

Lemma markMessagesAsSeen_frame_witness :
  let st' := final (markMessagesAsSeen sampleWorld sessionWithPending) in
  length (messages st') = 2
  ∧ ∃ m', messages st' !! 1 = Some m'
          ∧ ∃ t, m' = mkMessage (Some "hi") None (Some MessageType.customer) None
                        (Some "2021-03-01T10:00:00.000Z") None (Some t).
Proof.
  intros st'.
  destruct (markMessagesAsSeen_frame sampleWorld sessionWithPending)
    as (_ & Hlen & Hframe).
  split; [exact Hlen|].
  destruct (Hframe 1 (pendingMessage "hi" "2021-03-01T10:00:00.000Z") eq_refl)
    as (m' & Hm' & _ & Hadded).
  exists m'. split; [exact Hm'|]. apply Hadded. reflexivity.
Defined.

(** ** Conversation resolution *)

Section Resolution.

Variable W : World.

Lemma insertSorted_perm x l : Permutation (x :: l) (insertSorted W x l).
Proof.
  induction l as [|y l IH]; simpl; [reflexivity|].
  destruct (0 <? compareCreatedAt W x y)%Z; [|reflexivity].
  rewrite perm_swap. constructor. exact IH.
Qed.

Lemma sortByCreatedAt_perm l : Permutation l (sortByCreatedAt W l).
Proof.
  induction l as [|x l IH]; simpl; [reflexivity|].
  rewrite <- insertSorted_perm. constructor. exact IH.
Qed.

Lemma notAfter_trans a b c : notAfter W a b → notAfter W b c → notAfter W a c.
Proof.
  unfold notAfter.
  destruct (dateValue W (created_at a)), (dateValue W (created_at b)),
    (dateValue W (created_at c)); try tauto. lia.
Qed.

Lemma insertSorted_sorted x l :
  dated W x → Forall (dated W) l →
  StronglySorted (notAfter W) l →
  StronglySorted (notAfter W) (insertSorted W x l).
Proof.
  intros [vx Hx] Hdated Hsorted.
  induction l as [|y l IH]; simpl.
  - repeat constructor.
  - apply Forall_cons in Hdated as [[vy Hy] Hdated].
    apply StronglySorted_inv in Hsorted as [Hsorted Hy_first].
    destruct (0 <? compareCreatedAt W x y)%Z eqn:Hcmp.
    + constructor; [apply IH; assumption|].
      rewrite <- insertSorted_perm. constructor; [|assumption].
      apply Z.ltb_lt in Hcmp. unfold compareCreatedAt in Hcmp.
      unfold notAfter. rewrite Hx, Hy in *. lia.
    + assert (notAfter W x y) as Hxy.
      { apply Z.ltb_ge in Hcmp. unfold compareCreatedAt in Hcmp.
        unfold notAfter. rewrite Hx, Hy in *. lia. }
      constructor; [constructor; assumption|].
      constructor; [assumption|].
      eapply Forall_impl; [exact Hy_first|].
      intros z Hyz. simpl. eapply notAfter_trans; eassumption.
Qed.

Lemma sortByCreatedAt_sorted l :
  Forall (dated W) l → StronglySorted (notAfter W) (sortByCreatedAt W l).
Proof.
  induction l as [|x l IH]; simpl; intros Hdated.
  - constructor.
  - apply Forall_cons in Hdated as [Hx Hdated].
    apply insertSorted_sorted; [assumption| |apply IH; assumption].
    rewrite <- sortByCreatedAt_perm. assumption.
Qed.

Lemma try_catch_normal {A} (m handler : M A) st a st' :
  m st = (Normal a, st') → try_catch m handler st = (Normal a, st').
Proof. intros Hm. unfold try_catch. rewrite Hm. reflexivity. Qed.

Lemma logger_debug_run text st :
  logger_debug text st = (Normal tt, logged text st).
Proof.
  unfold logger_debug, logged, mbind, M_bind, get, when, emit, modify; simpl.
  destruct (debugModeEnabled st); reflexivity.
Qed.

Lemma logged_fields text st :
  config (logged text st) = config st ∧ settings (logged text st) = settings st.
Proof. unfold logged. destruct (debugModeEnabled st); split; reflexivity. Qed.

Lemma setConversationId_run conversation st :
  ∃ st' c,
    setConversationId conversation st = (Normal tt, st')
    ∧ conversationId st' = Some conversation
    ∧ channel st' = Some c
    ∧ chan_topic c = "conversation:" +:+ conversation
    ∧ chan_kind c = ConversationChannel
    ∧ ChannelJoin c ∈ trace st'
    ∧ config st' = config st ∧ settings st' = settings st.
Proof.
  destruct st as [cfg debug customer conv msgs sett [old|] made reads tr];
    destruct debug, (onSetConversationId cfg) eqn:Hcallback;
    unfold setConversationId, joinConversationChannel, logger_debug, socket_channel,
      mbind, M_bind, get, modify, emit, when; simpl;
    rewrite Hcallback; eexists _, _;
    (split; [reflexivity|]); simpl;
    repeat (split; [reflexivity|]);
    (split; [|split; reflexivity]);
    repeat first [apply list_elem_of_here | apply list_elem_of_further].
Qed.

Lemma setMessages_run msgs st :
  ∃ st',
    setMessages msgs st = (Normal tt, st')
    ∧ messages st' = msgs
    ∧ conversationId st' = conversationId st
    ∧ channel st' = channel st
    ∧ ∀ e, e ∈ trace st → e ∈ trace st'.
Proof.
  unfold setMessages, mbind, M_bind, modify, get, when, emit; simpl.
  destruct (onMessagesUpdated (config st)); eexists;
    (split; [reflexivity|]); simpl; repeat (split; [reflexivity|]);
    intros e He; [apply list_elem_of_further|]; exact He.
Qed.

(** With no generator configured, a greeting asked for with
    [{created_at: t, seen_at: t}] carries [t] in both fields. *)
Lemma getDefaultGreeting_pinned t st g :
  setInitialMessage (config st) = None →
  result (getDefaultGreeting W (pinnedTo t) st) = Normal g →
  Forall (λ m, created_at m = t ∧ seen_at m = t) g.
Proof.
  intros Hgen. unfold getDefaultGreeting, result, mbind, M_bind, get, now; simpl.
  rewrite Hgen. destruct (negb _ && negb _); simpl; intros [= <-].
  - constructor.
  - repeat constructor.
Qed.

Lemma comparable_dated l : comparable W l = true ↔ Forall (dated W) l.
Proof.
  unfold comparable, dated. rewrite forallb_forall, Forall_forall.
  split; intros Hall m Hm.
  - apply list_elem_of_In, Hall, bool_decide_eq_true in Hm. exact Hm.
  - apply bool_decide_eq_true, Hall, list_elem_of_In, Hm.
Qed.

(** On dates, the engine's sort is the stable sort. *)
Lemma arraySort_dated l : Forall (dated W) l → arraySort W l = sortByCreatedAt W l.
Proof. intros Hl%comparable_dated. unfold arraySort. rewrite Hl. reflexivity. Qed.

(** C9.  When the session has a customer id (its own or the fallback) and the
    backend returns that customer's conversations, the latest one with
    messages, [fetchLatestConversation] completes with: the transcript equal
    to the greeting default followed by the messages as the sort returns
    them, which is the conversation's messages rearranged in ascending order
    of creation time when the creation times are dates (the order is the
    engine's own otherwise); the greeting default being what the policy
    returns for creation and seen timestamps both set to the creation time of
    the first of the sorted messages, which every entry of it carries when no
    generator is configured; the conversation id set and its channel created
    and joined; the conversation returned with its messages as sorted. *)
Theorem fetchLatestConversation_existing st fallback customer conv others msgs :
  JS.or (customerId st) fallback = Some customer →
  customer ≠ "" →
  api_fetchCustomerConversations W
    (trace (logged "Fetching conversations for customer:" st)) customer
  = Normal (conv :: others) →
  conv_messages conv = Value msgs →
  msgs ≠ [] →
  let sorted := arraySort W msgs in
  let st' := final (fetchLatestConversation W fallback st) in
  ∃ g c,
    (Forall (dated W) msgs →
     Permutation msgs sorted ∧ StronglySorted (notAfter W) sorted
     ∧ ∃ first rest, sorted = first :: rest)
    ∧ result (getDefaultGreeting W (pinnedTo (firstCreatedAt sorted)) st) = Normal g
    ∧ (setInitialMessage (config st) = None →
       Forall (λ m, created_at m = firstCreatedAt sorted
                    ∧ seen_at m = firstCreatedAt sorted) g)
    ∧ messages st' = g ++ sorted
    ∧ conversationId st' = Some (conv_id conv)
    ∧ channel st' = Some c
    ∧ chan_topic c = "conversation:" +:+ conv_id conv
    ∧ chan_kind c = ConversationChannel
    ∧ ChannelJoin c ∈ trace st'
    ∧ result (fetchLatestConversation W fallback st)
      = Normal (Some (mkConversation (conv_id conv) (Value sorted))).
Proof.
  intros Hcustomer Hne Hapi Hmsgs Hnonempty sorted st'. subst st'.
  set (st1 := logged "Fetching conversations for customer:" st) in *.
  set (st2 := logged "Found existing conversations:"
                (set_trace (ApiFetchCustomerConversations customer :: trace st1) st1)).
  destruct (setConversationId_run (conv_id conv) st2)
    as (st3 & c & Hset & Hconv3 & Hchan3 & Htopic & Hkind & Hjoin3 & Hcfg3 & Hsett3).
  destruct (getDefaultGreeting_runs W (pinnedTo (firstCreatedAt sorted)) st3)
    as (g & n & Hgreet).
  destruct (setMessages_run (g ++ sorted) (tick n st3))
    as (st4 & Hsetm & Hmsgs4 & Hconv4 & Hchan4 & Htrace4).
  assert (config st3 = config st ∧ settings st3 = settings st) as [Hcfg Hsett].
  { rewrite Hcfg3, Hsett3. unfold st2.
    destruct (logged_fields "Found existing conversations:"
                (set_trace (ApiFetchCustomerConversations customer :: trace st1) st1))
      as [-> ->].
    apply (logged_fields _ st). }
  assert (fetchLatestConversation W fallback st
          = (Normal (Some (mkConversation (conv_id conv) (Value sorted))), st4))
    as Hrun.
  { unfold fetchLatestConversation. apply try_catch_normal.
    rewrite (bind_normal (get customerId) _ st (customerId st) st eq_refl).
    rewrite Hcustomer.
    assert (JS.truthy (Some customer) = true) as ->.
    { destruct customer; [congruence | reflexivity]. }
    change (negb true) with false. cbv iota.
    rewrite (bind_normal _ _ st tt st1 (logger_debug_run _ st)).
    assert (fetchLatestCustomerConversation W customer st1 = (Normal (Some conv), st2))
      as Hfetch.
    { unfold fetchLatestCustomerConversation.
      rewrite (bind_normal _ _ st1 (conv :: others)
                 (set_trace (ApiFetchCustomerConversations customer :: trace st1) st1)).
      - rewrite (bind_normal _ _ _ tt st2 (logger_debug_run _ _)). reflexivity.
      - unfold await. rewrite Hapi. reflexivity. }
    rewrite (bind_normal _ _ st1 (Some conv) st2 Hfetch).
    unfold sortedInPlace. rewrite Hmsgs.
    rewrite (bind_normal _ _ st2 sorted st2 eq_refl).
    rewrite (bind_normal _ _ st2 tt st3 Hset).
    rewrite (bind_normal _ _ st3 g (tick n st3) Hgreet).
    rewrite (bind_normal _ _ (tick n st3) tt st4 Hsetm).
    reflexivity. }
  exists g, c. rewrite Hrun. unfold final, result; simpl.
  split.
  { intros Hdated. subst sorted. rewrite (arraySort_dated _ Hdated).
    pose proof (sortByCreatedAt_perm msgs) as Hperm.
    split; [exact Hperm|]. split; [apply sortByCreatedAt_sorted, Hdated|].
    destruct (sortByCreatedAt W msgs) as [|first rest]; [|eauto].
    apply Permutation_nil_r in Hperm. contradiction. }
  assert (result (getDefaultGreeting W (pinnedTo (firstCreatedAt sorted)) st) = Normal g)
    as Hg.
  { rewrite <- (getDefaultGreeting_same W W st3 st) by
      (try assumption; right; eexists; reflexivity).
    rewrite Hgreet. reflexivity. }
  split; [assumption|].
  split; [intros Hgen; apply (getDefaultGreeting_pinned _ st); assumption|].
  split; [assumption|].
  split; [rewrite Hconv4; exact Hconv3|].
  split; [rewrite Hchan4; exact Hchan3|].
  split; [assumption|]. split; [assumption|].
  split; [apply Htrace4, Hjoin3 | reflexivity].
Qed.

End Resolution.

Lemma fetchLatestConversation_existing_witness :
  let st := newSession sampleConfig false
              (Some "11111111-1111-1111-1111-111111111111") in
  ∃ g,
    messages (final (fetchLatestConversation sampleWorld None st))
    = g ++ [earlierQuestion; earlierAnswer]
    ∧ StronglySorted (notAfter sampleWorld) [earlierQuestion; earlierAnswer]
    ∧ Forall (λ m, created_at m = created_at earlierQuestion
                   ∧ seen_at m = created_at earlierQuestion) g
    ∧ conversationId (final (fetchLatestConversation sampleWorld None st))
      = Some "conversation-7".
Proof.
  intros st.
  destruct (fetchLatestConversation_existing sampleWorld st None
              "11111111-1111-1111-1111-111111111111"
              (mkConversation "conversation-7" (Value [earlierAnswer; earlierQuestion]))
              [] [earlierAnswer; earlierQuestion])
    as (g & c & Hsorted & _ & Hpinned & Hmsgs & Hconv & _).
  - reflexivity.
  - discriminate.
  - reflexivity.
  - reflexivity.
  - discriminate.
  - exists g. split; [exact Hmsgs|]. split; [|split].
    + apply Hsorted. repeat constructor; vm_compute; eexists; reflexivity.
    + apply Hpinned. reflexivity.
    + exact Hconv.
Defined.

(** C9, as stated, fails with a configured generator that ignores the
    overrides: the transcript starts with the generator's greeting, whose
    creation timestamp is not the first message's. *)
Lemma fetchLatestConversation_generator_not_pinned :
  let st := newSession generatorConfig false
              (Some "11111111-1111-1111-1111-111111111111") in
  messages (final (fetchLatestConversation sampleWorld None st))
  = [sampleGreeting; earlierQuestion; earlierAnswer]
  ∧ created_at sampleGreeting ≠ created_at earlierQuestion.
Proof.
  intros st. split; [vm_compute; reflexivity | discriminate].
Qed.

(** ** Every call keeps the channel invariant *)

Section Sessions.

Variable W : World.

Lemma sessionInv_quiet evs st st' :
  sessionInv st →
  trace st' = evs ++ trace st → Forall quiet evs → channel st' = channel st →
  sessionInv st'.
Proof.
  intros [Hnever Hholds] Htrace Hquiet Hchannel.
  assert (neverTwoJoined (evs ++ trace st)
          ∧ joinedConversations (evs ++ trace st) = joinedConversations (trace st))
    as [Hnever' Hjoined'].
  { clear Htrace. induction Hquiet as [|e evs He _ IH].
    - split; [assumption | reflexivity].
    - destruct IH as [IHnever IHjoined]. split.
      + apply (neverTwoJoined_quiet e (evs ++ trace st)); assumption.
      + rewrite <- IHjoined. apply (joinedConversations_quiet e (evs ++ trace st) He). }
  unfold sessionInv, holdsJoined. rewrite Htrace, Hchannel, Hjoined'.
  split; assumption.
Qed.

(** A step that adds only quiet events and keeps the channel handle. *)
Lemma preserves_quiet_step {A} (m : M A) :
  (∀ st, ∃ evs, trace (final (m st)) = evs ++ trace st
                ∧ Forall quiet evs ∧ channel (final (m st)) = channel st) →
  preserves m.
Proof.
  intros Hstep st Hinv. destruct (Hstep st) as (evs & Htrace & Hquiet & Hchannel).
  eapply sessionInv_quiet; eassumption.
Qed.

Lemma preserves_ret {A} (a : A) : preserves (mret a).
Proof. apply preserves_quiet_step. intros st. exists []. repeat split. constructor. Qed.

Lemma preserves_get {A} (f : State → A) : preserves (get f).
Proof. apply preserves_quiet_step. intros st. exists []. repeat split. constructor. Qed.

Lemma preserves_now : preserves (now W).
Proof. apply preserves_quiet_step. intros st. exists []. repeat split. constructor. Qed.

Lemma preserves_modify f :
  (∀ st, trace (f st) = trace st ∧ channel (f st) = channel st) →
  preserves (modify f).
Proof.
  intros Hf. apply preserves_quiet_step. intros st. exists [].
  destruct (Hf st). repeat split; try assumption. constructor.
Qed.

Lemma preserves_emit e : quiet e → preserves (emit e).
Proof.
  intros He. apply preserves_quiet_step. intros st. exists [e].
  repeat split. constructor; [assumption | constructor].
Qed.

Lemma preserves_await {A} e (answer : list Event → Completion A) :
  quiet e → preserves (await e answer).
Proof.
  intros He. apply preserves_quiet_step. intros st. exists [e].
  repeat split. constructor; [assumption | constructor].
Qed.

Lemma preserves_socket_channel kind topic customer_ :
  preserves (socket_channel kind topic customer_).
Proof.
  apply preserves_quiet_step. intros st. eexists [_].
  repeat split. constructor; [exact I | constructor].
Qed.

(** Leaving a channel, whichever, cannot make two joined. *)
Lemma preserves_leave c : preserves (emit (ChannelLeave c)).
Proof.
  intros st [Hnever Hholds]. unfold emit, modify, final, sessionInv, holdsJoined; simpl.
  assert (joinedConversations (trace st) = []
          ∨ ∃ c', channel st = Some c' ∧ joinedConversations (trace st) = [c'])
    as Hcases by exact Hholds.
  assert (filter (λ c', c' ≠ c) (joinedConversations (trace st)) = []
          ∨ ∃ c', channel st = Some c'
                  ∧ filter (λ c', c' ≠ c) (joinedConversations (trace st)) = [c'])
    as Hafter.
  { destruct Hcases as [-> | (c' & Hc' & ->)]; [left; reflexivity|].
    destruct (decide (c' = c)) as [-> | Hne].
    - left. rewrite filter_cons_False by (intros H; apply H; reflexivity). reflexivity.
    - right. exists c'. split; [assumption|].
      rewrite filter_cons_True by assumption. reflexivity. }
  split; [|exact Hafter].
  apply neverTwoJoined_cons; [assumption| |discriminate].
  simpl. destruct Hafter as [-> | (c' & _ & ->)]; simpl; lia.
Qed.

Lemma preserves_bind {A B} (m : M A) (f : A → M B) :
  preserves m → (∀ a, preserves (f a)) → preserves (m ≫= f).
Proof.
  intros Hm Hf st Hinv. specialize (Hm st Hinv).
  unfold mbind, M_bind, final in *.
  destruct (m st) as [[a|] st1]; simpl in Hm; [|exact Hm].
  apply (Hf a st1 Hm).
Qed.

(** The channel [socket_channel] hands on has the kind asked for. *)
Lemma preserves_bind_socket_channel {B} kind topic customer_ (f : Channel → M B) :
  (∀ c, chan_kind c = kind → preserves (f c)) →
  preserves (socket_channel kind topic customer_ ≫= f).
Proof.
  intros Hf st Hinv.
  pose proof (preserves_socket_channel kind topic customer_ st Hinv) as Hinv1.
  unfold mbind, M_bind, socket_channel, final in *; simpl in *.
  apply Hf; [reflexivity | exact Hinv1].
Qed.

Lemma preserves_try_catch {A} (m handler : M A) :
  preserves m → preserves handler → preserves (try_catch m handler).
Proof.
  intros Hm Hh st Hinv. specialize (Hm st Hinv).
  unfold try_catch, final in *.
  destruct (m st) as [[a|] st1]; simpl in Hm; [exact Hm|].
  apply (Hh st1 Hm).
Qed.

Lemma preserves_when b (m : M unit) : preserves m → preserves (when b m).
Proof. intros Hm. destruct b; [exact Hm | apply preserves_ret]. Qed.

Lemma preserves_mapM {A B} (f : A → M B) l :
  (∀ a, preserves (f a)) → preserves (mapM f l).
Proof.
  intros Hf. induction l as [|x l IH]; simpl.
  - apply preserves_ret.
  - apply preserves_bind; [apply Hf|]. intros y.
    apply preserves_bind; [exact IH|]. intros ys. apply preserves_ret.
Qed.

Lemma preserves_setConversationId id : preserves (setConversationId id).
Proof. intros st [Hnever Hholds]. apply setConversationId_joins; assumption. Qed.

Create HintDb preserves.

#[local] Hint Resolve preserves_ret preserves_get preserves_now
  preserves_socket_channel preserves_leave preserves_setConversationId : preserves.
#[local] Hint Extern 1 (preserves (modify _)) =>
  apply preserves_modify; intros ?; split; reflexivity : preserves.
#[local] Hint Extern 1 (preserves (emit _)) =>
  apply preserves_emit;
  first [ exact I
        | match goal with
          | H : chan_kind ?c = _ |- quiet (ChannelJoin ?c) =>
              unfold quiet, isConversationChannel; rewrite H; reflexivity
          end ] : preserves.
#[local] Hint Extern 1 (preserves (await _ _)) =>
  apply preserves_await; exact I : preserves.

(** Walks through a method: one rule per construct of the monad, a case
    split at each branch of the code. *)
Ltac preserving :=
  repeat match goal with
    | |- preserves (mbind _ (socket_channel _ _ _)) =>
        apply preserves_bind_socket_channel; intros ? ?
    | |- preserves (mbind _ _) => apply preserves_bind; [|intros ?]
    | |- preserves (try_catch _ _) => apply preserves_try_catch
    | |- preserves (when _ _) => apply preserves_when
    | |- preserves (mapM _ _) => apply preserves_mapM; intros ?
    | |- preserves (match ?x with _ => _ end) => destruct x
    | |- preserves _ => progress cbv zeta
    | |- preserves _ => solve [eauto with preserves]
    end.

Lemma preserves_logger_debug text : preserves (logger_debug text).
Proof. unfold logger_debug. preserving. Qed.

Lemma preserves_logger_warn text : preserves (logger_warn text).
Proof. unfold logger_warn. preserving. Qed.

Lemma preserves_logger_error text : preserves (logger_error text).
Proof. unfold logger_error. preserving. Qed.

#[local] Hint Resolve preserves_logger_debug preserves_logger_warn
  preserves_logger_error : preserves.

Lemma preserves_setMessages msgs : preserves (setMessages msgs).
Proof. unfold setMessages. preserving. Qed.

Lemma preserves_setWidgetSettings new_settings :
  preserves (setWidgetSettings new_settings).
Proof. unfold setWidgetSettings. preserving. Qed.

Lemma preserves_setCustomerId id : preserves (setCustomerId id).
Proof. unfold setCustomerId, cacheCustomerId. preserving. Qed.

#[local] Hint Resolve preserves_setMessages preserves_setWidgetSettings
  preserves_setCustomerId : preserves.

Lemma preserves_connect : preserves connect.
Proof. unfold connect, listenForAgentAvailability. preserving. Qed.

Lemma preserves_disconnect : preserves disconnect.
Proof. unfold disconnect. preserving. Qed.

Lemma preserves_listenForNewConversations customer_ :
  preserves (listenForNewConversations customer_).
Proof. unfold listenForNewConversations. preserving. Qed.

Lemma preserves_initializeNewConversation existing email_arg :
  preserves (initializeNewConversation W existing email_arg).
Proof.
  unfold initializeNewConversation, createOrUpdateCustomer, createNewConversation,
    createNewCustomer, updateCustomerMetadata.
  preserving.
Qed.

Lemma preserves_getDefaultGreeting overrides :
  preserves (getDefaultGreeting W overrides).
Proof. unfold getDefaultGreeting. preserving. Qed.

#[local] Hint Resolve preserves_connect preserves_listenForNewConversations
  preserves_initializeNewConversation preserves_getDefaultGreeting : preserves.

Lemma preserves_sendNewMessage message email_arg :
  preserves (sendNewMessage W message email_arg).
Proof. unfold sendNewMessage. preserving. Qed.

Lemma preserves_markMessagesAsSeen : preserves (markMessagesAsSeen W).
Proof. unfold markMessagesAsSeen, markSeen. preserving. Qed.

Lemma preserves_onShout message : preserves (onShout W message).
Proof. unfold onShout, handleMessageCreated. preserving. Qed.

Lemma preserves_fetchLatestConversation fallback :
  preserves (fetchLatestConversation W fallback).
Proof.
  unfold fetchLatestConversation, fetchLatestCustomerConversation. preserving.
Qed.

Lemma preserves_isValidCustomerId id : preserves (isValidCustomerId W id).
Proof. unfold isValidCustomerId, isValidCustomer. preserving. Qed.

Lemma preserves_checkForExistingCustomer metadata candidate :
  preserves (checkForExistingCustomer W metadata candidate).
Proof.
  unfold checkForExistingCustomer, findCustomerByMetadata, findCustomerByExternalId.
  preserving.
Qed.

#[local] Hint Resolve preserves_fetchLatestConversation preserves_isValidCustomerId
  preserves_checkForExistingCustomer : preserves.

Lemma preserves_start : preserves (start W).
Proof. unfold start, fetchWidgetSettings. preserving. Qed.

Lemma preserves_onConversationCreatedEvent customer_ :
  preserves (onConversationCreatedEvent customer_).
Proof. unfold onConversationCreatedEvent. preserving. Qed.

Lemma preserves_onTimeout customer_ : preserves (onTimeout W customer_).
Proof. unfold onTimeout. preserving. Qed.

Lemma perform_sessionInv call st : sessionInv st → sessionInv (perform W call st).
Proof.
  destruct call; simpl.
  - apply preserves_start.
  - apply preserves_connect.
  - apply preserves_disconnect.
  - apply preserves_setWidgetSettings.
  - apply preserves_setCustomerId.
  - apply preserves_setConversationId.
  - apply preserves_setMessages.
  - apply preserves_initializeNewConversation.
  - apply preserves_sendNewMessage.
  - apply preserves_markMessagesAsSeen.
  - apply preserves_fetchLatestConversation.
  - apply preserves_onShout.
  - apply preserves_onConversationCreatedEvent.
  - apply preserves_onTimeout.
Qed.

(** X6.  Whatever is called on a new session, and whatever the transport
    delivers, in any order: at no point of the trace are two conversation
    channels joined, and each is joined when none is. *)
Theorem session_never_two_joined calls cfg debug cached :
  sessionInv (session W calls (newSession cfg debug cached)).
Proof.
  assert (∀ st, sessionInv st → sessionInv (session W calls st)) as Hall.
  { induction calls as [|call calls IH]; intros st Hinv; simpl; [assumption|].
    apply IH, perform_sessionInv, Hinv. }
  apply Hall. split; [apply neverTwoJoined_nil | left; reflexivity].
Qed.

End Sessions.

(** ** Properties every call keeps *)

Section Keeping.

Context {I : State → Prop}.

Lemma keeps_ret {A} (a : A) : keeps I (mret a).
Proof. intros st Hst. exact Hst. Qed.

Lemma keeps_get {A} (f : State → A) : keeps I (get f).
Proof. intros st Hst. exact Hst. Qed.

Lemma keeps_throw {A} : keeps I (throw (A := A)).
Proof. intros st Hst. exact Hst. Qed.

Lemma keeps_bind {A B} (m : M A) (f : A → M B) :
  keeps I m → (∀ a, keeps I (f a)) → keeps I (m ≫= f).
Proof.
  intros Hm Hf st Hst. specialize (Hm st Hst).
  unfold mbind, M_bind, final in *.
  destruct (m st) as [[a|] st1]; simpl in Hm; [|exact Hm].
  apply (Hf a st1 Hm).
Qed.

Lemma keeps_try_catch {A} (m handler : M A) :
  keeps I m → keeps I handler → keeps I (try_catch m handler).
Proof.
  intros Hm Hh st Hst. specialize (Hm st Hst).
  unfold try_catch, final in *.
  destruct (m st) as [[a|] st1]; simpl in Hm; [exact Hm|].
  apply (Hh st1 Hm).
Qed.

Lemma keeps_when b (m : M unit) : keeps I m → keeps I (when b m).
Proof. intros Hm. destruct b; [exact Hm | apply keeps_ret]. Qed.

Lemma keeps_mapM {A B} (f : A → M B) l :
  (∀ a, keeps I (f a)) → keeps I (mapM f l).
Proof.
  intros Hf. induction l as [|x l IH]; simpl.
  - apply keeps_ret.
  - apply keeps_bind; [apply Hf|]. intros y.
    apply keeps_bind; [exact IH|]. intros ys. apply keeps_ret.
Qed.

Lemma keeps_modify f : (∀ st, I st → I (f st)) → keeps I (modify f).
Proof. intros Hf st Hst. apply Hf, Hst. Qed.

Lemma keeps_emit e :
  (∀ st, I st → I (set_trace (e :: trace st) st)) → keeps I (emit e).
Proof. intros He st Hst. apply He, Hst. Qed.

Lemma keeps_await {A} e (answer : list Event → Completion A) :
  (∀ st, I st → I (set_trace (e :: trace st) st)) → keeps I (await e answer).
Proof. intros He st Hst. apply He, Hst. Qed.

Lemma keeps_now W : (∀ st, I st → I (tick 1 st)) → keeps I (now W).
Proof. intros Ht st Hst. apply Ht, Hst. Qed.

(** What follows [socket_channel] can rely on the kind and topic of the
    channel it is handed. *)
Lemma keeps_bind_socket_channel {B} kind topic customer_ (f : Channel → M B) :
  (∀ st, I st → I (final (socket_channel kind topic customer_ st))) →
  (∀ c, chan_kind c = kind → chan_topic c = topic → keeps I (f c)) →
  keeps I (socket_channel kind topic customer_ ≫= f).
Proof.
  intros Hs Hf st Hst. specialize (Hs st Hst).
  unfold mbind, M_bind, socket_channel, final in *; simpl in *.
  apply Hf; [reflexivity | reflexivity | exact Hs].
Qed.

Lemma session_keeps W calls :
  (∀ call st, I st → I (perform W call st)) →
  ∀ st, I st → I (session W calls st).
Proof.
  intros Hperform. induction calls as [|call calls IH]; intros st Hst; simpl.
  - exact Hst.
  - apply IH, Hperform, Hst.
Qed.

End Keeping.

Create HintDb keeps.

Ltac head_of t :=
  match t with
  | ?f _ => head_of f
  | _ => t
  end.

(** Walks through a method down to its elementary steps, unfolding the
    methods it calls unless a lemma of the hint base covers them; [side]
    shows that an elementary step keeps the property. *)
Ltac keeping side :=
  repeat match goal with
    | |- keeps _ _ => solve [eauto with keeps]
    | |- keeps _ (mbind _ (socket_channel _ _ _)) =>
        apply keeps_bind_socket_channel; [solve [side] | intros ? ? ?]
    | |- keeps _ (mbind _ _) => apply keeps_bind; [|intros ?]
    | |- keeps _ (try_catch _ _) => apply keeps_try_catch
    | |- keeps _ (when _ _) => apply keeps_when
    | |- keeps _ (mapM _ _) => apply keeps_mapM; intros ?
    | |- keeps _ (mret _) => apply keeps_ret
    | |- keeps _ (get _) => apply keeps_get
    | |- keeps _ throw => apply keeps_throw
    | |- keeps _ (modify _) => apply keeps_modify; solve [side]
    | |- keeps _ (emit _) => apply keeps_emit; solve [side]
    | |- keeps _ (await _ _) => apply keeps_await; solve [side]
    | |- keeps _ (now _) => apply keeps_now; solve [side]
    | |- keeps _ (match ?x with _ => _ end) => destruct x
    | |- keeps _ _ => progress cbv zeta
    | |- keeps _ ?m => let h := head_of m in progress unfold h
    end.

(** Reduces a property of [perform] to one of the method performed. *)
Ltac performing call Hst :=
  destruct call; cbv beta iota delta [perform];
  lazymatch goal with
  | |- context [final (?m ?s)] =>
      pattern (final (m s));
      lazymatch goal with
      | |- ?J _ => refine ((_ : keeps J m) s Hst)
      end
  end.

Section EveryCall.

Variable W : World.

(** X1.  Once a conversation id is set, no call and no delivery unsets it:
    after any sequence of them the session still has a conversation id. *)
Theorem conversationId_never_unset calls st :
  is_Some (conversationId st) →
  is_Some (conversationId (session W calls st)).
Proof.
  apply (session_keeps (I := λ st, is_Some (conversationId st))).
  intros call st' Hst. performing call Hst;
    keeping ltac:(intros ? ?; simpl; eauto).
Qed.

Lemma setConversationId_linked id : keeps linked (setConversationId id).
Proof.
  intros st _.
  destruct (setConversationId_run id st)
    as (st' & c & Hrun & Hconv & Hchan & Htopic & Hkind & _).
  rewrite Hrun. right. exists id, c. repeat split; assumption.
Qed.

#[local] Hint Resolve setConversationId_linked : keeps.

(** X2.  The channel a session holds is always the channel of its current
    conversation: whatever is called or delivered, either the session has no
    conversation id and no channel, or its channel is a conversation channel
    whose topic is ["conversation:"] followed by the conversation id. *)
Theorem session_channel_follows_conversation calls st :
  linked st → linked (session W calls st).
Proof.
  apply session_keeps.
  intros call st' Hst. performing call Hst;
    keeping ltac:(intros ? ?; assumption).
Qed.

Lemma setMessages_told initial msgs :
  keeps (λ st, onMessagesUpdated (config st) = true ∧ toldTranscript initial st)
    (setMessages msgs).
Proof.
  intros st [Hflag _].
  unfold setMessages, final, mbind, M_bind, modify, get, when, emit, toldTranscript;
    simpl.
  rewrite Hflag. simpl. split; [assumption | reflexivity].
Qed.

#[local] Hint Resolve setMessages_told : keeps.

(** X3.  With [onMessagesUpdated] configured, the embedding page always has
    the current transcript: after any sequence of calls and deliveries, the
    transcript is the one the latest [onMessagesUpdated] call carried, or, if
    there was no such call, the transcript is still the initial one. *)
Theorem session_transcript_always_notified calls initial st :
  onMessagesUpdated (config st) = true →
  toldTranscript initial st →
  toldTranscript initial (session W calls st).
Proof.
  intros Hflag Htold.
  apply (session_keeps
           (I := λ st, onMessagesUpdated (config st) = true ∧ toldTranscript initial st)
           W calls); [|split; assumption].
  intros call st' Hst. performing call Hst;
    keeping ltac:(intros ? ?; assumption).
Qed.

Lemma setCustomerId_told initial id : keeps (toldCustomer initial) (setCustomerId id).
Proof.
  intros st _.
  destruct st as [cfg dbg customer conv msgs sett held made reads tr].
  destruct id as [text|]; [destruct text as [|a text]|];
    destruct dbg; destruct (onSetCustomerId cfg) eqn:Hcallback;
    unfold setCustomerId, cacheCustomerId, logger_debug, final, mbind, M_bind,
      modify, get, when, emit, toldCustomer, storable; simpl;
    rewrite Hcallback; simpl; split; reflexivity.
Qed.

#[local] Hint Resolve setCustomerId_told : keeps.

(** X4.  The customer id changes only through [setCustomerId], which tells
    the page and the storage: after any sequence of calls and deliveries, the
    customer id is the detail of the latest ['papercups:customer:set'] event
    and the storage holds it (nothing, for a missing or empty id); or no such
    event was dispatched, nothing was stored, and the id is the initial
    one. *)
Theorem session_customer_always_cached calls initial st :
  toldCustomer initial st → toldCustomer initial (session W calls st).
Proof.
  apply session_keeps.
  intros call st' Hst. performing call Hst;
    keeping ltac:(intros ? ?; assumption).
Qed.

Lemma logger_debug_silent tr text :
  keeps (λ st, debugModeEnabled st = false
               ∧ List.filter isConsoleDebug (trace st) = tr)
    (logger_debug text).
Proof.
  intros st [Hoff Htr].
  unfold logger_debug, final, mbind, M_bind, get, when; simpl.
  rewrite Hoff. split; assumption.
Qed.

#[local] Hint Resolve logger_debug_silent : keeps.

(** X5.  With debug mode off, nothing is written with [console.debug]:
    whatever is called or delivered, the trace gains no [ConsoleDebug]
    event. *)
Theorem session_debug_silent calls st :
  debugModeEnabled st = false →
  List.filter isConsoleDebug (trace (session W calls st))
  = List.filter isConsoleDebug (trace st).
Proof.
  intros Hoff.
  apply (session_keeps
           (I := λ st', debugModeEnabled st' = false
                        ∧ List.filter isConsoleDebug (trace st')
                          = List.filter isConsoleDebug (trace st))
           W calls); [|split; [assumption | reflexivity]].
  intros call st' Hst. performing call Hst;
    keeping ltac:(intros ? ?; assumption).
Qed.

End EveryCall.

Lemma conversationId_never_unset_witness :
  let st := session sampleWorld [CallSendNewMessage hiMessage None]
              (newSession sampleConfig false None) in
  is_Some (conversationId st)
  ∧ is_Some (conversationId (session sampleWorld sampleCalls st)).
Proof.
  intros st.
  assert (is_Some (conversationId st)) as Hset by (vm_compute; eexists; reflexivity).
  split; [exact Hset|].
  apply (conversationId_never_unset sampleWorld sampleCalls st Hset).
Defined.

Lemma session_channel_follows_conversation_witness :
  linked (session sampleWorld sampleCalls (newSession sampleConfig false None)).
Proof.
  apply (session_channel_follows_conversation sampleWorld sampleCalls).
  left. split; reflexivity.
Defined.

Lemma session_transcript_always_notified_witness :
  toldTranscript [] (session sampleWorld sampleCalls (newSession sampleConfig false None)).
Proof.
  apply (session_transcript_always_notified sampleWorld sampleCalls []).
  - reflexivity.
  - reflexivity.
Defined.

Lemma session_customer_always_cached_witness :
  toldCustomer None (session sampleWorld sampleCalls (newSession sampleConfig false None)).
Proof.
  apply (session_customer_always_cached sampleWorld sampleCalls None).
  split; reflexivity.
Defined.

Lemma session_debug_silent_witness :
  List.filter isConsoleDebug
    (trace (session sampleWorld sampleCalls (newSession sampleConfig false None)))
  = [].
Proof.
  apply (session_debug_silent sampleWorld sampleCalls (newSession sampleConfig false None)).
  reflexivity.
Defined.

(** ** Methods that never throw *)

Section Returning.

Lemma returns_ret {A} (a : A) : returns (mret a).
Proof. intros st. exists a. reflexivity. Qed.

Lemma returns_get {A} (f : State → A) : returns (get f).
Proof. intros st. eexists. reflexivity. Qed.

Lemma returns_modify f : returns (modify f).
Proof. intros st. eexists. reflexivity. Qed.

Lemma returns_emit e : returns (emit e).
Proof. intros st. eexists. reflexivity. Qed.

Lemma returns_now W : returns (now W).
Proof. intros st. eexists. reflexivity. Qed.

Lemma returns_socket_channel kind topic customer_ :
  returns (socket_channel kind topic customer_).
Proof. intros st. eexists. reflexivity. Qed.

Lemma returns_bind {A B} (m : M A) (f : A → M B) :
  returns m → (∀ a, returns (f a)) → returns (m ≫= f).
Proof.
  intros Hm Hf st. destruct (Hm st) as [a Ha].
  unfold mbind, M_bind, result in *.
  destruct (m st) as [r st1]; simpl in Ha; subst r. apply Hf.
Qed.

(** A handler that returns makes the whole [try] return, whatever the body
    does. *)
Lemma returns_try_catch {A} (m handler : M A) :
  returns handler → returns (try_catch m handler).
Proof.
  intros Hh st. unfold try_catch, result.
  destruct (m st) as [[a|] st1]; [exists a; reflexivity | apply Hh].
Qed.

Lemma returns_when b (m : M unit) : returns m → returns (when b m).
Proof. intros Hm. destruct b; [exact Hm | apply returns_ret]. Qed.

Lemma returns_mapM {A B} (f : A → M B) l :
  (∀ a, returns (f a)) → returns (mapM f l).
Proof.
  intros Hf. induction l as [|x l IH]; simpl.
  - apply returns_ret.
  - apply returns_bind; [apply Hf|]. intros y.
    apply returns_bind; [exact IH|]. intros ys. apply returns_ret.
Qed.

(** A step that returns and keeps [I] hands on a value and a state where
    [I] holds. *)
Lemma run_step {A} (I : State → Prop) (m : M A) st :
  returns m → keeps I m → I st →
  ∃ a st', m st = (Normal a, st') ∧ I st'.
Proof.
  intros Hret Hkeeps Hst. destruct (Hret st) as [a Ha].
  specialize (Hkeeps st Hst). unfold result, final in *.
  destruct (m st) as [r st']; simpl in *; subst r. eauto.
Qed.

Lemma bind_throws {A B} (m : M A) (f : A → M B) st st' :
  m st = (Throw, st') → (m ≫= f) st = (Throw, st').
Proof. intros Hm. unfold mbind, M_bind. rewrite Hm. reflexivity. Qed.

End Returning.

Create HintDb returns.

#[export] Hint Resolve returns_ret returns_get returns_modify returns_emit returns_now
  returns_socket_channel : returns.

Ltac returning :=
  repeat match goal with
    | |- returns _ => solve [eauto with returns]
    | |- returns (mbind _ _) => apply returns_bind; [|intros ?]
    | |- returns (try_catch _ _) => apply returns_try_catch
    | |- returns (when _ _) => apply returns_when
    | |- returns (mapM _ _) => apply returns_mapM; intros ?
    | |- returns (match ?x with _ => _ end) => destruct x
    | |- returns _ => progress cbv zeta
    | |- returns ?m => let h := head_of m in progress unfold h
    end.

(** The side condition of [keeping] for a property that the trace, the count
    of channels and the count of clock readings do not affect. *)
Ltac unaffected := intros ? ?; assumption.

Section NeverThrowing.

Variable W : World.

Lemma fetchWidgetSettings_run st :
  fetchWidgetSettings W st
  = (Normal match api_fetchWidgetSettings W (trace st) (accountId (config st)) with
            | Normal (Some fetched) => fetched
            | _ => noSettings
            end,
     set_trace (ApiFetchWidgetSettings (accountId (config st)) :: trace st) st).
Proof.
  unfold fetchWidgetSettings, try_catch, await, mbind, M_bind, get; simpl.
  destruct (api_fetchWidgetSettings W (trace st) (accountId (config st)))
    as [[fetched|]|]; reflexivity.
Qed.

(** X7.  [isValidCustomerId] never throws, and for a non-empty id that
    [isValidUuid] accepts, the verdict is the backend's when the backend
    answers; the backend is asked exactly once. *)
Theorem isValidCustomerId_returns_backend_verdict st id :
  (∃ verdict, result (isValidCustomerId W id st) = Normal verdict)
  ∧ (∀ s verdict,
       id = Some s → s ≠ "" → isValidUuid W s = true →
       api_isValidCustomer W (trace st) s = Normal verdict →
       isValidCustomerId W id st
       = (Normal verdict, set_trace (ApiIsValidCustomer s :: trace st) st)).
Proof.
  split.
  - assert (returns (isValidCustomerId W id)) as Hret by returning.
    apply Hret.
  - intros s verdict -> Hne Huuid Hanswer. unfold isValidCustomerId.
    assert (negb (JS.truthy (Some s)) || (String.length s =? 0) = false) as ->.
    { destruct s; [congruence | reflexivity]. }
    rewrite Huuid. simpl.
    unfold try_catch, isValidCustomer, await. rewrite Hanswer. reflexivity.
Qed.

(** X8.  [updateExistingCustomer] never throws: without metadata it does
    nothing at all, and with metadata a failure of the backend is only
    logged; in both cases the fields of the session are left as they were. *)
Theorem updateExistingCustomer_never_throws st customer metadata :
  result (updateExistingCustomer W customer metadata st) = Normal tt
  ∧ sameFields st (final (updateExistingCustomer W customer metadata st))
  ∧ (metadata = None → updateExistingCustomer W customer metadata st = (Normal tt, st)).
Proof.
  split; [|split].
  - assert (returns (updateExistingCustomer W customer metadata)) as Hret by returning.
    destruct (Hret st) as [[] Hresult]. exact Hresult.
  - assert (keeps (sameFields st) (updateExistingCustomer W customer metadata))
      as Hkeeps by keeping unaffected.
    apply Hkeeps. repeat split; reflexivity.
  - intros ->. reflexivity.
Qed.

End NeverThrowing.

Lemma isValidCustomerId_returns_backend_verdict_witness :
  let rejecting :=
    mkWorld areDatesEqual_spec isValidUuid_spec (dateValue sampleWorld)
      (clock sampleWorld) (api_fetchWidgetSettings sampleWorld)
      (λ _ _, Normal false)
      (api_findCustomerByExternalId sampleWorld)
      (api_fetchCustomerConversations sampleWorld)
      (api_createNewCustomer sampleWorld) (api_updateCustomerMetadata sampleWorld)
      (api_createNewConversation sampleWorld) (engineSort sampleWorld) in
  let st := newSession sampleConfig false None in
  isValidCustomerId rejecting (Some "11111111-1111-1111-1111-111111111111") st
  = (Normal false,
     set_trace [ApiIsValidCustomer "11111111-1111-1111-1111-111111111111"] st).
Proof.
  intros rejecting st.
  apply (proj2 (isValidCustomerId_returns_backend_verdict rejecting st
                  (Some "11111111-1111-1111-1111-111111111111"))
           "11111111-1111-1111-1111-111111111111" false).
  - reflexivity.
  - discriminate.
  - vm_compute. reflexivity.
  - reflexivity.
Defined.

Lemma updateExistingCustomer_never_throws_witness :
  let st := newSession sampleConfig false None in
  updateExistingCustomer sampleWorld "11111111-1111-1111-1111-111111111111" None st
  = (Normal tt, st).
Proof.
  intros st.
  apply (proj2 (proj2 (updateExistingCustomer_never_throws sampleWorld st
                         "11111111-1111-1111-1111-111111111111" None))).
  reflexivity.
Defined.

(** ** More on reconciliation, order and seen marks *)

Section Transcript.

Variable W : World.

(** X9.  Whatever the transcript, after [handleMessageCreated] the received
    message is in it, no entry was removed without the message taking its
    place (the length is the same or one more), and every entry is either
    the received message or an entry of the old transcript. *)
Theorem handleMessageCreated_keeps_or_appends st E :
  E ∈ messages (final (handleMessageCreated W E st))
  ∧ length (messages st) ≤ length (messages (final (handleMessageCreated W E st)))
  ∧ length (messages (final (handleMessageCreated W E st))) ≤ S (length (messages st))
  ∧ Forall (λ m, m = E ∨ m ∈ messages st)
      (messages (final (handleMessageCreated W E st))).
Proof.
  rewrite handleMessageCreated_messages. unfold reconcile.
  destruct (find (isUnsent W E) (messages st)) as [unsent|] eqn:Hfind.
  - apply find_some in Hfind as [Hin _]. apply list_elem_of_In in Hin.
    rewrite length_map. repeat split; try lia.
    + apply list_elem_of_fmap. exists unsent. split; [|assumption].
      unfold JS.strict_eq. rewrite bool_decide_eq_true_2; reflexivity.
    + apply Forall_forall. intros m Hm.
      apply list_elem_of_fmap in Hm as (m0 & -> & Hm0).
      destruct (JS.strict_eq _ _); [left; reflexivity | right; assumption].
  - rewrite length_app. simpl. repeat split; try lia.
    + apply elem_of_app. right. apply list_elem_of_here.
    + apply Forall_app. split.
      * apply Forall_forall. intros m Hm. right. assumption.
      * repeat constructor.
Qed.

(** X10.  Deliveries are not idempotent: a confirmed message that matches no
    pending entry is appended each time it is delivered, so that delivered
    twice it is listed twice. *)
Theorem handleMessageCreated_twice_duplicates st E :
  JS.truthy (created_at E) = true →
  (∀ P, P ∈ messages st → isUnsent W E P = false) →
  messages (final (handleMessageCreated W E (final (handleMessageCreated W E st))))
  = messages st ++ [E; E].
Proof.
  intros Hconfirmed Hnone.
  rewrite !handleMessageCreated_messages.
  rewrite (reconcile_appended W (messages st) E Hnone).
  rewrite reconcile_appended.
  - rewrite <- app_assoc. reflexivity.
  - intros P [HP | HP]%elem_of_app; [apply Hnone, HP|].
    apply list_elem_of_singleton in HP as ->.
    unfold isUnsent. rewrite Hconfirmed. reflexivity.
Qed.

Lemma notAfter_compare a b :
  notAfter W a b → (0 <? compareCreatedAt W a b)%Z = false.
Proof.
  unfold notAfter, compareCreatedAt.
  destruct (dateValue W (created_at a)), (dateValue W (created_at b));
    try contradiction. intros Hle. apply Z.ltb_ge. lia.
Qed.

(** X11.  Messages that the backend returns in ascending order of creation
    time come out of the sort in the order they came in, messages created at
    the same time included: the stable sort leaves them, and so does
    [messages.sort], every creation time being a date. *)
Theorem sortByCreatedAt_keeps_sorted l :
  StronglySorted (notAfter W) l →
  sortByCreatedAt W l = l ∧ (Forall (dated W) l → arraySort W l = l).
Proof.
  intros Hsorted.
  assert (sortByCreatedAt W l = l) as Hstable.
  { induction Hsorted as [|x l Hsorted IH Hfirst]; simpl; [reflexivity|].
    fold (sortByCreatedAt W l). rewrite IH.
    destruct Hfirst as [|y l' Hxy _]; simpl; [reflexivity|].
    rewrite (notAfter_compare _ _ Hxy). reflexivity. }
  split; [exact Hstable|].
  intros Hdated. rewrite (arraySort_dated W l Hdated). exact Hstable.
Qed.

Lemma markSeen_seen m st :
  (∀ n, clock W n ≠ "") →
  ∃ m' n, markSeen W m st = (Normal m', tick n st) ∧ seen m'.
Proof.
  intros Hclock. unfold markSeen, seen.
  destruct (JS.truthy (seen_at m)) eqn:Hm.
  - exists m, 0. rewrite tick_0. split; [reflexivity | assumption].
  - eexists _, 1. split; [reflexivity|]. simpl.
    specialize (Hclock (clock_reads st)). destruct (clock W (clock_reads st));
      [congruence | reflexivity].
Qed.

Lemma mapM_markSeen_seen l st :
  (∀ n, clock W n ≠ "") →
  ∃ l' n, mapM (markSeen W) l st = (Normal l', tick n st) ∧ Forall seen l'.
Proof.
  intros Hclock. revert st. induction l as [|m l IH]; intros st.
  - exists [], 0. rewrite tick_0. split; [reflexivity | constructor].
  - destruct (markSeen_seen m st Hclock) as (m' & n & Hm & Hseen).
    destruct (IH (tick n st)) as (l' & k & Hl & Hall).
    exists (m' :: l'), (k + n). split; [|constructor; assumption].
    simpl. rewrite (bind_normal _ _ _ _ _ Hm), (bind_normal _ _ _ _ _ Hl), tick_tick.
    reflexivity.
Qed.

Lemma mapM_markSeen_fixed l st :
  Forall seen l → mapM (markSeen W) l st = (Normal l, st).
Proof.
  induction 1 as [|m l Hm _ IH]; simpl; [reflexivity|].
  assert (markSeen W m st = (Normal m, st)) as Hstep.
  { unfold markSeen. unfold seen in Hm. rewrite Hm. reflexivity. }
  rewrite (bind_normal _ _ _ _ _ Hstep), (bind_normal _ _ _ _ _ IH). reflexivity.
Qed.

(** The part of [markMessagesAsSeen] that follows the push. *)
Lemma markMessagesAsSeen_after_push st st1 :
  (match channel st with
   | Some c => emit (ChannelPush c "messages:seen" None)
   | None => mret tt
   end) st = (Normal tt, st1) →
  markMessagesAsSeen W st
  = (current ← get messages;
     marked ← mapM (markSeen W) current;
     setMessages marked) st1.
Proof.
  intros Hpush. unfold markMessagesAsSeen.
  rewrite (bind_normal (get channel) _ st (channel st) st eq_refl).
  rewrite (bind_normal _ _ st tt st1 Hpush). reflexivity.
Qed.

Lemma markMessagesAsSeen_marks st :
  ∃ st1 marked n,
    messages st1 = messages st ∧ clock_reads st1 = clock_reads st
    ∧ mapM (markSeen W) (messages st) st1 = (Normal marked, tick n st1)
    ∧ markMessagesAsSeen W st = setMessages marked (tick n st1).
Proof.
  assert (∃ st1, (match channel st with
                  | Some c => emit (ChannelPush c "messages:seen" None)
                  | None => mret tt
                  end) st = (Normal tt, st1)
                 ∧ messages st1 = messages st ∧ clock_reads st1 = clock_reads st)
    as (st1 & Hpush & Hmsgs & Hreads).
  { destruct (channel st); eexists; repeat split; reflexivity. }
  destruct (mapM_markSeen_runs W (messages st) st1) as (marked & n & Hmap & _).
  exists st1, marked, n. repeat split; try assumption.
  rewrite (markMessagesAsSeen_after_push st st1 Hpush).
  rewrite (bind_normal (get messages) _ st1 (messages st1) st1 eq_refl).
  rewrite Hmsgs, (bind_normal _ _ _ _ _ Hmap). reflexivity.
Qed.

(** X12.  With a clock whose readings are never empty, [markMessagesAsSeen]
    leaves every message of the transcript with a seen timestamp; called
    again, it leaves the transcript as it is and does not read the clock. *)
Theorem markMessagesAsSeen_idempotent st :
  (∀ n, clock W n ≠ "") →
  let st1 := final (markMessagesAsSeen W st) in
  Forall seen (messages st1)
  ∧ messages (final (markMessagesAsSeen W st1)) = messages st1
  ∧ clock_reads (final (markMessagesAsSeen W st1)) = clock_reads st1.
Proof.
  intros Hclock st1.
  assert (Forall seen (messages st1)) as Hseen.
  { destruct (markMessagesAsSeen_marks st) as (sta & marked & n & Hmsgs & _ & Hmap & Hrun).
    destruct (mapM_markSeen_seen (messages st) sta Hclock) as (l' & k & Hmap' & Hall).
    rewrite Hmap in Hmap'. injection Hmap' as <- _.
    unfold st1. rewrite Hrun, setMessages_messages. exact Hall. }
  split; [exact Hseen|].
  destruct (markMessagesAsSeen_marks st1) as (sta & marked & n & Hmsgs & Hreads & Hmap & Hrun).
  rewrite (mapM_markSeen_fixed (messages st1) sta Hseen) in Hmap.
  injection Hmap as <- Htick.
  rewrite Hrun, setMessages_messages. split; [reflexivity|].
  destruct (setMessages_run (messages st1) (tick n sta)) as (stb & Hset & _).
  assert (clock_reads (final (setMessages (messages st1) (tick n sta)))
          = clock_reads (tick n sta)) as ->.
  { unfold setMessages, final, mbind, M_bind, modify, get, when, emit; simpl.
    destruct (onMessagesUpdated (config sta)); reflexivity. }
  rewrite <- Htick. exact Hreads.
Qed.

End Transcript.

(** X13.  In a session whose joined conversation channel, if any, is the one
    it holds, [disconnect] leaves the channel: afterwards no conversation
    channel is joined.  The session still holds the channel it left. *)
Theorem disconnect_leaves_the_conversation st :
  holdsJoined st →
  joinedConversations (trace (final (disconnect st))) = []
  ∧ channel (final (disconnect st)) = channel st.
Proof.
  intros Hholds. unfold disconnect, final, mbind, M_bind, emit, modify, get; simpl.
  destruct (channel st) as [c|] eqn:Hchannel; simpl.
  - split; [|assumption].
    apply (holdsJoined_leave (set_trace (SocketDisconnect :: trace st) st) c);
      [exact Hholds | exact Hchannel].
  - split; [|assumption]. apply (holdsJoined_none st Hholds Hchannel).
Qed.

Lemma handleMessageCreated_twice_duplicates_witness :
  let E := mkMessage (Some "How can I help?") None (Some MessageType.agent) None
             (Some "2021-03-01T10:02:00.000Z") (Some "2021-03-01T10:02:00.100Z") None in
  messages (final (handleMessageCreated sampleWorld E
                     (final (handleMessageCreated sampleWorld E sessionWithPending))))
  = messages sessionWithPending ++ [E; E].
Proof.
  intros E.
  apply (handleMessageCreated_twice_duplicates sampleWorld sessionWithPending E).
  - reflexivity.
  - intros P HP. apply list_elem_of_In in HP. simpl in HP.
    destruct HP as [<-|[<-|[]]]; vm_compute; reflexivity.
Defined.

Lemma sortByCreatedAt_keeps_sorted_witness :
  sortByCreatedAt sampleWorld [earlierQuestion; earlierAnswer]
  = [earlierQuestion; earlierAnswer]
  ∧ arraySort sampleWorld [earlierQuestion; earlierAnswer]
    = [earlierQuestion; earlierAnswer].
Proof.
  destruct (sortByCreatedAt_keeps_sorted sampleWorld [earlierQuestion; earlierAnswer])
    as [Hstable Hsort].
  - repeat constructor. vm_compute. discriminate.
  - split; [exact Hstable|]. apply Hsort.
    repeat constructor; vm_compute; eexists; reflexivity.
Defined.

Lemma markMessagesAsSeen_idempotent_witness :
  let st1 := final (markMessagesAsSeen sampleWorld sessionWithPending) in
  Forall seen (messages st1)
  ∧ messages (final (markMessagesAsSeen sampleWorld st1)) = messages st1
  ∧ clock_reads (final (markMessagesAsSeen sampleWorld st1)) = clock_reads st1.
Proof.
  apply (markMessagesAsSeen_idempotent sampleWorld sessionWithPending).
  intros [|n]; discriminate.
Defined.

Lemma disconnect_leaves_the_conversation_witness :
  let st := session sampleWorld [CallSendNewMessage hiMessage None]
              (newSession sampleConfig false None) in
  joinedConversations (trace st)
  = [mkChannel 0 ConversationChannel "conversation:conversation-1"
       (Some "22222222-2222-2222-2222-222222222222")]
  ∧ joinedConversations (trace (final (disconnect st))) = []
  ∧ channel (final (disconnect st)) = channel st.
Proof.
  intros st. split; [vm_compute; reflexivity|].
  apply (disconnect_leaves_the_conversation st).
  right. eexists. split; vm_compute; reflexivity.
Defined.

(** ** Sending and the first conversation *)

Section FirstMessage.

Variable W : World.

Lemma sendable_not_rejected message :
  sendable message →
  ((String.length (default "" (body message)) =? 0)
   || (String.length (JS.trim (default "" (body message))) =? 0))
  && (length (default [] (file_ids message)) =? 0) = false.
Proof.
  intros [(text & -> & Htext) | (f & fs & ->)]; simpl.
  - rewrite (trim_nonblank text Htext).
    destruct text; [discriminate Htext | reflexivity].
  - apply andb_false_r.
Qed.

(** What a sendable message sets off, the clock once read. *)
Lemma sendNewMessage_sendable st message email_arg :
  sendable message →
  sendNewMessage W message email_arg st
  = (setMessages (messages st ++ [optimisticEntry W st message]);;
     when (negb (JS.truthy (customerId st)) || negb (JS.truthy (conversationId st)))
       (initializeNewConversation W (customerId st) email_arg);;
     ch ← get channel;
     match ch with
     | Some c =>
         new_customerId ← get customerId;
         emit (ChannelPush c "shout" (Some (pushedPayload W st new_customerId message)))
     | None => mret tt
     end) (tick 1 st).
Proof.
  intros Hsendable. unfold sendNewMessage.
  rewrite (bind_normal (get customerId) _ st (customerId st) st eq_refl).
  rewrite (bind_normal (get conversationId) _ st (conversationId st) st eq_refl).
  cbv zeta. rewrite (sendable_not_rejected message Hsendable).
  rewrite (bind_normal (now W) _ st (clock W (clock_reads st)) (tick 1 st) eq_refl).
  rewrite (bind_normal (get messages) _ (tick 1 st) (messages st) (tick 1 st) eq_refl).
  reflexivity.
Qed.

Lemma sendNewMessage_appends_optimistic_entry_lemma st message email_arg :
  sendable message →
  messages (final (sendNewMessage W message email_arg st))
  = messages st ++ [optimisticEntry W st message].
Proof.
  intros Hsendable. rewrite (sendNewMessage_sendable st message email_arg Hsendable).
  set (entry := optimisticEntry W st message).
  destruct (setMessages_run (messages st ++ [entry]) (tick 1 st))
    as (st1 & Hset & Hmsgs & _).
  rewrite (bind_normal _ _ _ _ _ Hset).
  set (rest := (when _ _ ;; _)).
  assert (keeps (λ st', messages st' = messages st ++ [entry]) rest) as Hkeeps.
  { unfold rest. keeping ltac:(intros ? ?; assumption). }
  apply (Hkeeps st1 Hmsgs).
Qed.



(** When the backend cannot create a conversation, the method throws after
    the backend calls for the customer, whose events are all it adds. *)
Lemma initializeNewConversation_fails st existing email_arg (I : State → Prop) :
  (∀ h customer, api_createNewConversation W h customer = Throw) →
  (∀ st' e, isApiCall e = true ∨ (∃ text, e = ConsoleError text) →
            I st' → I (set_trace (e :: trace st') st')) →
  I st →
  ∃ st', initializeNewConversation W existing email_arg st = (Throw, st') ∧ I st'.
Proof.
  intros Hfail Hstable Hst. unfold initializeNewConversation.
  rewrite (bind_normal (get config) _ st (config st) st eq_refl). cbv zeta.
  set (metadata := if JS.truthy email_arg then _ else _).
  assert (keeps I (createOrUpdateCustomer W existing metadata)) as Hkeeps.
  { keeping ltac:(intros ? ?; apply Hstable;
                  [first [left; reflexivity | right; eexists; reflexivity]
                  | assumption]). }
  specialize (Hkeeps st Hst). unfold final in Hkeeps.
  destruct (createOrUpdateCustomer W existing metadata st) as [[newId|] st1] eqn:Hcustomer;
    simpl in Hkeeps.
  - rewrite (bind_normal _ _ _ _ _ Hcustomer).
    eexists. split.
    + apply bind_throws. unfold createNewConversation, await. rewrite Hfail. reflexivity.
    + apply Hstable; [left; reflexivity | assumption].
  - exists st1. split; [apply bind_throws; assumption | assumption].
Qed.

(** X16.  When the backend cannot create a conversation,
    [initializeNewConversation] throws and the session has learnt nothing:
    customer id, conversation id, channel, transcript and settings are as
    before, nothing was stored and nothing was pushed. *)
Theorem initializeNewConversation_failure_changes_nothing st existing email_arg :
  (∀ h customer, api_createNewConversation W h customer = Throw) →
  result (initializeNewConversation W existing email_arg st) = Throw
  ∧ sameFields st (final (initializeNewConversation W existing email_arg st))
  ∧ lastStored (trace (final (initializeNewConversation W existing email_arg st)))
    = lastStored (trace st)
  ∧ List.filter isPush (trace (final (initializeNewConversation W existing email_arg st)))
    = List.filter isPush (trace st).
Proof.
  intros Hfail.
  destruct (initializeNewConversation_fails st existing email_arg
              (λ st', sameFields st st'
                      ∧ lastStored (trace st') = lastStored (trace st)
                      ∧ List.filter isPush (trace st') = List.filter isPush (trace st))
              Hfail)
    as (st' & Hrun & Hsame & Hstored & Hpush).
  - intros st1 e He (Hsame & Hstored & Hpush).
    split; [exact Hsame|].
    destruct He as [He | [text ->]]; [|split; assumption].
    destruct e; try discriminate He; split; assumption.
  - split; [repeat split; reflexivity|]. split; reflexivity.
  - rewrite Hrun. unfold result, final; simpl.
    split; [reflexivity|]. split; [assumption|]. split; assumption.
Qed.


End FirstMessage.

Section Confirmation.

Variable W : World.

(** X18.  Round trip of a message: after [sendNewMessage] of a sendable
    message without creation timestamp, the delivery of a message [E] with
    the same body and the send timestamp of the optimistic entry puts [E] in
    the place of that entry, at the end of the transcript, and no entry is
    added, provided [areDatesEqual] holds of the timestamp and itself and no
    earlier entry matches [E] or carries that timestamp. *)
Theorem sent_message_is_confirmed_in_place st message email_arg E :
  sendable message →
  JS.truthy (created_at message) = false →
  sent_at E = Some (clock W (clock_reads st)) →
  body E = Some (default "" (body message)) →
  areDatesEqual W (sent_at E) (sent_at E) = true →
  (∀ m, m ∈ messages st → isUnsent W E m = false ∧ sent_at m ≠ sent_at E) →
  messages (final (handleMessageCreated W E
                     (final (sendNewMessage W message email_arg st))))
  = messages st ++ [E].
Proof.
  intros Hsendable Hpending Hsent Hbody Hrefl Hold.
  rewrite handleMessageCreated_messages.
  rewrite (sendNewMessage_appends_optimistic_entry_lemma W st message email_arg Hsendable).
  set (entry := optimisticEntry W st message).
  assert (sent_at entry = sent_at E) as Hsame by (rewrite Hsent; reflexivity).
  rewrite (reconcile_found W _ E (length (messages st)) entry).
  - rewrite map_app. simpl. f_equal.
    + rewrite <- (map_id (messages st)) at 2. apply map_ext_in.
      intros m Hm. apply list_elem_of_In in Hm.
      unfold JS.strict_eq. rewrite bool_decide_eq_false_2; [reflexivity|].
      intros Heq. apply (proj2 (Hold m Hm)). rewrite Hsent. exact Heq.
    + unfold JS.strict_eq. rewrite bool_decide_eq_true_2; reflexivity.
  - rewrite lookup_app_r by lia. rewrite Nat.sub_diag. reflexivity.
  - unfold isUnsent, entry, optimisticEntry; simpl.
    rewrite Hpending, <- Hsent, Hrefl, Hbody. simpl.
    rewrite bool_decide_eq_true_2 by reflexivity. reflexivity.
  - intros j Q Hj HQ Hmatch. rewrite lookup_app_l in HQ by assumption.
    destruct (Hold Q) as [Hno _]; [apply list_elem_of_lookup; eauto|].
    congruence.
Qed.

End Confirmation.



Lemma initializeNewConversation_failure_changes_nothing_witness :
  let st := newSession sampleConfig false None in
  result (initializeNewConversation worldWithoutConversations None None st) = Throw
  ∧ sameFields st (final (initializeNewConversation worldWithoutConversations None None st)).
Proof.
  intros st.
  destruct (initializeNewConversation_failure_changes_nothing
              worldWithoutConversations st None None)
    as (Hthrow & Hsame & _); [reflexivity|].
  split; assumption.
Defined.


Lemma sent_message_is_confirmed_in_place_witness :
  let again := mkMessage (Some "anyone?") None None None None None None in
  let E := mkMessage (Some "anyone?") None (Some MessageType.customer)
             (Some "22222222-2222-2222-2222-222222222222")
             (Some "2021-03-01T10:00:01.000Z") (Some "2021-03-01T10:00:01.350Z") None in
  messages (final (handleMessageCreated sampleWorld E
                     (final (sendNewMessage sampleWorld again None sessionInConversation))))
  = messages sessionInConversation ++ [E].
Proof.
  intros again E.
  apply (sent_message_is_confirmed_in_place sampleWorld sessionInConversation again None E).
  - left. exists "anyone?". split; reflexivity.
  - reflexivity.
  - vm_compute. reflexivity.
  - reflexivity.
  - vm_compute. reflexivity.
  - intros m Hm. vm_compute in Hm. apply list_elem_of_In in Hm.
    destruct Hm as [<-|[]]. split; [vm_compute; reflexivity | discriminate].
Defined.

(** ** Customers on the backend *)

Section Customers.

Variable W : World.

(** X19.  For a visitor without customer id, when the backend creates the
    customer and then the conversation, [initializeNewConversation] sends
    the configured metadata (with the email given, if any, in place of the
    configured one), takes the new customer id, stores it, takes the new
    conversation id, and joins that conversation's channel as the new
    customer. *)
Theorem initializeNewConversation_creates_customer_then_conversation
    st existing email_arg newId conversation :
  JS.truthy existing = false →
  api_createNewCustomer W (trace st) (metadataWith (config st) email_arg)
  = Normal newId →
  api_createNewConversation W
    (ApiCreateNewCustomer (metadataWith (config st) email_arg) :: trace st) newId
  = Normal conversation →
  let st' := final (initializeNewConversation W existing email_arg st) in
  result (initializeNewConversation W existing email_arg st) = Normal tt
  ∧ customerId st' = Some newId
  ∧ lastStored (trace st') = Some (storable (Some newId))
  ∧ conversationId st' = Some conversation
  ∧ channel st'
    = Some (mkChannel (channels_made st) ConversationChannel
              ("conversation:" +:+ conversation) (storable (Some newId)))
  ∧ joinedConversations (trace st')
    = mkChannel (channels_made st) ConversationChannel
        ("conversation:" +:+ conversation) (storable (Some newId))
      :: match channel st with
         | Some old => filter (λ c, c ≠ old) (joinedConversations (trace st))
         | None => joinedConversations (trace st)
         end.
Proof.
  intros Hnew Hcustomer Hconversation st'. subst st'.
  assert (match existing with
          | Some known =>
              if JS.truthy existing
              then updateCustomerMetadata W known (metadataWith (config st) email_arg)
              else createNewCustomer W (metadataWith (config st) email_arg)
          | None => createNewCustomer W (metadataWith (config st) email_arg)
          end = createNewCustomer W (metadataWith (config st) email_arg)) as Hattempt.
  { destruct existing; [rewrite Hnew|]; reflexivity. }
  set (st1 := set_trace (ApiCreateNewCustomer (metadataWith (config st) email_arg)
                         :: trace st) st).
  set (st2 := set_trace (ApiCreateNewConversation newId :: trace st1) st1).
  assert (initializeNewConversation W existing email_arg st
          = (setCustomerId (Some newId);; setConversationId conversation) st2) as ->.
  { unfold initializeNewConversation, createOrUpdateCustomer.
    rewrite (bind_normal (get config) _ st (config st) st eq_refl). cbv zeta.
    fold (metadataWith (config st) email_arg). rewrite Hattempt.
    rewrite (bind_normal _ _ st newId st1).
    - rewrite (bind_normal _ _ st1 conversation st2); [reflexivity|].
      unfold createNewConversation, await, st1. simpl. rewrite Hconversation.
      reflexivity.
    - unfold try_catch, createNewCustomer, await. rewrite Hcustomer. reflexivity. }
  unfold st2, st1.
  destruct st as [cfg dbg customer conv msgs sett held made reads tr].
  destruct newId as [|a newId];
    destruct dbg, held as [old|];
    destruct (onSetCustomerId cfg) eqn:Hcb1; destruct (onSetConversationId cfg) eqn:Hcb2;
    unfold setCustomerId, cacheCustomerId, setConversationId, joinConversationChannel,
      logger_debug, socket_channel, result, final, mbind, M_bind, emit, modify, get,
      when, storable, JS.or; simpl;
    rewrite ?Hcb1; simpl; rewrite ?Hcb2; simpl; repeat split; reflexivity.
Qed.

(** One run of [createOrUpdateCustomer]: the first attempt and, when it
    fails, the retry. *)
Lemma createOrUpdateCustomer_run st existing metadata :
  let attempt :=
    match existing with
    | Some known => if JS.truthy existing
                    then ApiUpdateCustomerMetadata known metadata
                    else ApiCreateNewCustomer metadata
    | None => ApiCreateNewCustomer metadata
    end in
  let answer :=
    match existing with
    | Some known => if JS.truthy existing
                    then api_updateCustomerMetadata W (trace st) known metadata
                    else api_createNewCustomer W (trace st) metadata
    | None => api_createNewCustomer W (trace st) metadata
    end in
  let failed :=
    ConsoleError "Retrying..."
    :: ConsoleError "Failed to update or create customer:" :: attempt :: trace st in
  createOrUpdateCustomer W existing metadata st
  = match answer with
    | Normal id => (Normal id, set_trace (attempt :: trace st) st)
    | Throw => (api_createNewCustomer W failed metadata,
                set_trace (ApiCreateNewCustomer metadata :: failed) st)
    end.
Proof.
  unfold createOrUpdateCustomer, try_catch, updateCustomerMetadata, createNewCustomer,
    logger_error, await, emit, modify, mbind, M_bind; simpl.
  destruct existing as [known|]; [destruct (JS.truthy (Some known))|];
    match goal with
    | |- context [match ?a with Normal _ => _ | Throw => _ end] => destruct a
    end; reflexivity.
Qed.

(** X20.  A failed update of a known customer is retried as a creation:
    [createOrUpdateCustomer] logs two errors, asks the backend for a new
    customer with the same metadata, and returns that answer, so that the id
    it returns is the new customer's and not the known one; a failed retry
    throws.  The session's fields are as before: the id returned is not
    stored by this method. *)
Theorem createOrUpdateCustomer_retries_by_creating st known metadata :
  known ≠ "" →
  api_updateCustomerMetadata W (trace st) known metadata = Throw →
  let failed :=
    ConsoleError "Retrying..."
    :: ConsoleError "Failed to update or create customer:"
    :: ApiUpdateCustomerMetadata known metadata :: trace st in
  let st' := final (createOrUpdateCustomer W (Some known) metadata st) in
  result (createOrUpdateCustomer W (Some known) metadata st)
  = api_createNewCustomer W failed metadata
  ∧ trace st' = ApiCreateNewCustomer metadata :: failed
  ∧ sameFields st st'.
Proof.
  intros Hknown Hupdate failed st'. subst st' failed.
  rewrite createOrUpdateCustomer_run.
  assert (JS.truthy (Some known) = true) as ->
    by (destruct known; [congruence | reflexivity]).
  rewrite Hupdate. unfold result, final, sameFields; simpl.
  destruct st. simpl. repeat split; reflexivity.
Qed.

(** X21.  [identify] leaves the session as it is (it does not set the
    customer id).  When the lookup by external id finds a customer and the
    update of that customer succeeds, the id of the update is returned and no
    customer is created; when the lookup throws, two errors are logged and a
    customer is created. *)
Theorem identify_updates_found_or_creates st externalId metadata :
  sameFields st (final (identify W externalId metadata st))
  ∧ (∀ found id,
       api_findCustomerByExternalId W (trace st) externalId None None
       = Normal (Some found) →
       found ≠ "" →
       api_updateCustomerMetadata W
         (ApiFindCustomerByExternalId externalId None None :: trace st) found metadata
       = Normal id →
       identify W externalId metadata st
       = (Normal id,
          set_trace (ApiUpdateCustomerMetadata found metadata
                     :: ApiFindCustomerByExternalId externalId None None :: trace st) st))
  ∧ (api_findCustomerByExternalId W (trace st) externalId None None = Throw →
     let failed :=
       ConsoleError "Retrying..."
       :: ConsoleError "Failed to update or create customer:"
       :: ApiFindCustomerByExternalId externalId None None :: trace st in
     identify W externalId metadata st
     = (api_createNewCustomer W failed metadata,
        set_trace (ApiCreateNewCustomer metadata :: failed) st)).
Proof.
  split; [|split].
  - assert (keeps (sameFields st) (identify W externalId metadata)) as Hkeeps
      by keeping unaffected.
    apply Hkeeps. repeat split; reflexivity.
  - intros found id Hfound Hne Hupdate.
    unfold identify, try_catch, findCustomerByExternalId, updateCustomerMetadata,
      await, mbind, M_bind; simpl.
    rewrite Hfound.
    assert (JS.truthy (Some found) = true) as ->
      by (destruct found; [congruence | reflexivity]).
    simpl. rewrite Hupdate. reflexivity.
  - intros Hthrow failed.
    unfold identify, try_catch, findCustomerByExternalId, createNewCustomer,
      logger_error, await, emit, modify, mbind, M_bind; simpl.
    rewrite Hthrow. reflexivity.
Qed.

End Customers.

Lemma initializeNewConversation_creates_customer_then_conversation_witness :
  let st := newSession sampleConfig false None in
  let st' := final (initializeNewConversation sampleWorld None (Some "a@example.com") st) in
  customerId st' = Some "22222222-2222-2222-2222-222222222222"
  ∧ conversationId st' = Some "conversation-1".
Proof.
  intros st st'.
  destruct (initializeNewConversation_creates_customer_then_conversation sampleWorld st
              None (Some "a@example.com") "22222222-2222-2222-2222-222222222222"
              "conversation-1")
    as (_ & Hcustomer & _ & Hconversation & _).
  - reflexivity.
  - reflexivity.
  - reflexivity.
  - split; assumption.
Defined.

Lemma identify_updates_found_or_creates_witness :
  let st := newSession sampleConfig false None in
  identify sampleWorld "ext-42" noMetadata st
  = (Normal "33333333-3333-3333-3333-333333333333",
     set_trace [ApiUpdateCustomerMetadata "33333333-3333-3333-3333-333333333333" noMetadata;
                ApiFindCustomerByExternalId "ext-42" None None] st).
Proof.
  intros st.
  apply (proj1 (proj2 (identify_updates_found_or_creates sampleWorld st "ext-42" noMetadata))
           "33333333-3333-3333-3333-333333333333" "33333333-3333-3333-3333-333333333333").
  - reflexivity.
  - discriminate.
  - reflexivity.
Defined.

(** ** More on conversation resolution *)

Section MoreResolution.

Variable W : World.

Lemma logged_sameFields text st0 st :
  sameFields st0 st → sameFields st0 (logged text st).
Proof. unfold logged. destruct (debugModeEnabled st); intros H; exact H. Qed.

(** X22.  [fetchLatestConversation] never throws.  When the backend call for
    the customer's conversations fails, it returns nothing and leaves the
    transcript, the ids, the settings and the channel as they were: the
    transcript is not reset to the greeting. *)
Theorem fetchLatestConversation_survives_backend_failure st fallback :
  (∃ r, result (fetchLatestConversation W fallback st) = Normal r)
  ∧ (∀ customer,
       JS.or (customerId st) fallback = Some customer → customer ≠ "" →
       api_fetchCustomerConversations W
         (trace (logged "Fetching conversations for customer:" st)) customer
       = Throw →
       result (fetchLatestConversation W fallback st) = Normal None
       ∧ sameFields st (final (fetchLatestConversation W fallback st))).
Proof.
  split.
  - assert (returns (fetchLatestConversation W fallback)) as Hret.
    { unfold fetchLatestConversation. apply returns_try_catch.
      unfold logger_debug. returning. }
    apply Hret.
  - intros customer Hcustomer Hne Hthrow.
    set (st1 := logged "Fetching conversations for customer:" st) in *.
    set (st2 := set_trace (ApiFetchCustomerConversations customer :: trace st1) st1).
    assert (fetchLatestConversation W fallback st
            = (Normal None, logged "Error fetching conversations!" st2)) as ->.
    { unfold fetchLatestConversation, try_catch.
      rewrite (bind_normal (get customerId) _ st (customerId st) st eq_refl).
      rewrite Hcustomer.
      assert (JS.truthy (Some customer) = true) as ->
        by (destruct customer; [congruence | reflexivity]).
      change (negb true) with false. cbv iota.
      rewrite (bind_normal _ _ st tt st1 (logger_debug_run _ st)).
      rewrite (bind_throws _ _ st1 st2).
      - rewrite (bind_normal _ _ st2 tt _ (logger_debug_run _ st2)). reflexivity.
      - apply bind_throws. unfold await. rewrite Hthrow. reflexivity. }
    split; [reflexivity|].
    apply logged_sameFields.
    assert (sameFields st st1) as Hst1
      by (apply logged_sameFields; repeat split; reflexivity).
    exact Hst1.
Qed.

Lemma fetchLatestConversation_without_customer_run st fallback :
  JS.truthy (JS.or (customerId st) fallback) = false →
  ∃ g st',
    getDefaultGreeting W noOverrides st = (Normal g, tick (clock_reads st' - clock_reads st) st)
    ∧ fetchLatestConversation W fallback st = (Normal None, st')
    ∧ messages st' = g
    ∧ config st' = config st ∧ settings st' = settings st
    ∧ customerId st' = customerId st
    ∧ conversationId st' = conversationId st
    ∧ channel st' = channel st
    ∧ (trace st' = trace st ∨ trace st' = OnMessagesUpdated g :: trace st).
Proof.
  intros Hnone.
  destruct (getDefaultGreeting_runs W noOverrides st) as (g & n & Hgreet).
  set (st2 := final (setMessages g (tick n st))).
  assert (setMessages g (tick n st) = (Normal tt, st2)
          ∧ messages st2 = g ∧ config st2 = config st ∧ settings st2 = settings st
          ∧ customerId st2 = customerId st ∧ conversationId st2 = conversationId st
          ∧ channel st2 = channel st ∧ clock_reads st2 = n + clock_reads st
          ∧ (trace st2 = trace st ∨ trace st2 = OnMessagesUpdated g :: trace st))
    as (Hset & Hmsgs & Hcfg & Hsett & Hcust & Hconv & Hchannel & Hreads & Htrace).
  { unfold st2, setMessages, final, mbind, M_bind, modify, get, when, emit; simpl.
    destruct (onMessagesUpdated (config st)); repeat split; auto. }
  exists g, st2.
  split; [rewrite Hgreet, Hreads; do 2 f_equal; lia|].
  split; [|repeat split; assumption].
  unfold fetchLatestConversation. apply try_catch_normal.
  rewrite (bind_normal (get customerId) _ st (customerId st) st eq_refl).
  destruct (JS.or (customerId st) fallback) as [customer|].
  - rewrite Hnone. change (negb false) with true. cbv iota.
    rewrite (bind_normal _ _ st g _ Hgreet), (bind_normal _ _ _ tt st2 Hset).
    reflexivity.
  - rewrite (bind_normal _ _ st g _ Hgreet), (bind_normal _ _ _ tt st2 Hset).
    reflexivity.
Qed.

(** X23.  Without a customer id, of the session or as fallback,
    [fetchLatestConversation] asks the backend nothing and joins nothing: it
    returns nothing, the transcript becomes the greeting default, and the
    conversation id and the channel stay as they were. *)
Theorem fetchLatestConversation_without_customer st fallback :
  JS.truthy (JS.or (customerId st) fallback) = false →
  let st' := final (fetchLatestConversation W fallback st) in
  ∃ g, result (getDefaultGreeting W noOverrides st) = Normal g
       ∧ result (fetchLatestConversation W fallback st) = Normal None
       ∧ messages st' = g
       ∧ conversationId st' = conversationId st
       ∧ channel st' = channel st
       ∧ List.filter isApiCall (trace st') = List.filter isApiCall (trace st)
       ∧ joinedConversations (trace st') = joinedConversations (trace st).
Proof.
  intros Hnone st'. subst st'.
  destruct (fetchLatestConversation_without_customer_run st fallback Hnone)
    as (g & st' & Hgreet & -> & Hmsgs & _ & _ & _ & Hconv & Hchannel & Htrace).
  exists g. unfold final; simpl.
  split; [rewrite Hgreet; reflexivity|]. split; [reflexivity|].
  split; [assumption|]. split; [assumption|]. split; [assumption|].
  destruct Htrace as [-> | ->]; split; reflexivity.
Qed.

Lemma fetched_fields customer st :
  sameFields st (fetched customer st)
  ∧ channels_made (fetched customer st) = channels_made st
  ∧ joinedConversations (trace (fetched customer st)) = joinedConversations (trace st).
Proof.
  unfold fetched, logged.
  destruct (debugModeEnabled st) eqn:Hdebug; simpl; rewrite ?Hdebug;
    repeat split; reflexivity.
Qed.

Lemma fetchLatestCustomerConversation_run st customer conversations :
  api_fetchCustomerConversations W
    (trace (logged "Fetching conversations for customer:" st)) customer
  = Normal conversations →
  fetchLatestCustomerConversation W customer
    (logged "Fetching conversations for customer:" st)
  = (Normal (head conversations), fetched customer st).
Proof.
  intros Hanswer. unfold fetchLatestCustomerConversation, fetched.
  set (st1 := logged "Fetching conversations for customer:" st) in *.
  rewrite (bind_normal _ _ st1 conversations
             (set_trace (ApiFetchCustomerConversations customer :: trace st1) st1)).
  - rewrite (bind_normal _ _ _ tt _ (logger_debug_run _ _)). reflexivity.
  - unfold await. rewrite Hanswer. reflexivity.
Qed.

(** X24.  For a customer without conversation yet, [fetchLatestConversation]
    returns nothing, sets the transcript to the greeting default, leaves the
    conversation id and the held channel as they are, and starts listening
    on the customer's lobby: a new channel of topic
    ["conversation:lobby:"] followed by the customer id is joined, and it is
    no conversation channel. *)
Theorem fetchLatestConversation_waits_in_lobby st fallback customer :
  JS.or (customerId st) fallback = Some customer → customer ≠ "" →
  api_fetchCustomerConversations W
    (trace (logged "Fetching conversations for customer:" st)) customer
  = Normal [] →
  let st' := final (fetchLatestConversation W fallback st) in
  let lobby := mkChannel (channels_made st) LobbyChannel
                 ("conversation:lobby:" +:+ customer) None in
  ∃ g later,
    result (getDefaultGreeting W noOverrides st) = Normal g
    ∧ result (fetchLatestConversation W fallback st) = Normal None
    ∧ messages st' = g
    ∧ conversationId st' = conversationId st
    ∧ channel st' = channel st
    ∧ trace st'
      = ChannelJoin lobby :: ChannelOn lobby "conversation:created"
        :: SocketChannel lobby :: later
    ∧ joinedConversations (trace st') = joinedConversations (trace st).
Proof.
  intros Hcustomer Hne Hanswer st' lobby. subst st'.
  destruct (fetched_fields customer st) as (Hsame & Hmade & Hjoined).
  destruct Hsame as (Hcfg & Hdebug & Hcust & Hconv & Hmsgs & Hsett & Hchan & Hreads).
  remember (fetched customer st) as st2 eqn:Hst2.
  destruct (getDefaultGreeting_runs W noOverrides st2) as (g & n & Hgreet).
  set (st3 := final (setMessages g (tick n st2))).
  assert (setMessages g (tick n st2) = (Normal tt, st3)
          ∧ messages st3 = g ∧ conversationId st3 = conversationId st2
          ∧ channel st3 = channel st2 ∧ channels_made st3 = channels_made st2
          ∧ joinedConversations (trace st3) = joinedConversations (trace st2))
    as (Hset & Hmsgs3 & Hconv3 & Hchan3 & Hmade3 & Hjoined3).
  { unfold st3, setMessages, final, mbind, M_bind, modify, get, when, emit; simpl.
    destruct (onMessagesUpdated (config st2)); repeat split; reflexivity. }
  assert (fetchLatestConversation W fallback st
          = (Normal None, final (listenForNewConversations customer st3))) as ->.
  { apply try_catch_normal.
    rewrite (bind_normal (get customerId) _ st (customerId st) st eq_refl).
    rewrite Hcustomer.
    replace (JS.truthy (Some customer)) with true
      by (destruct customer; [congruence | reflexivity]).
    change (negb true) with false. cbv iota.
    rewrite (bind_normal _ _ st tt _ (logger_debug_run _ st)).
    rewrite (bind_normal _ _ _ _ _
               (fetchLatestCustomerConversation_run st customer _ Hanswer)).
    cbv beta iota delta [head]. rewrite <- Hst2.
    rewrite (bind_normal _ _ st2 g _ Hgreet), (bind_normal _ _ _ tt st3 Hset).
    rewrite (bind_normal _ _ st3 tt (final (listenForNewConversations customer st3)));
      reflexivity. }
  exists g, (trace st3).
  split.
  { rewrite <- (getDefaultGreeting_same W W st2 st) by
      (try assumption; left; rewrite Hreads; reflexivity).
    rewrite Hgreet. reflexivity. }
  unfold result, final; simpl.
  split; [reflexivity|]. split; [assumption|].
  split; [congruence|]. split; [congruence|].
  split; [unfold lobby; rewrite <- Hmade, <- Hmade3; reflexivity|].
  congruence.
Qed.

(** What [fetchLatestConversation] does with the latest conversation of the
    customer, unless its messages are [null]. *)
Lemma fetchLatestConversation_found_run st fallback customer conv others :
  JS.or (customerId st) fallback = Some customer → customer ≠ "" →
  api_fetchCustomerConversations W
    (trace (logged "Fetching conversations for customer:" st)) customer
  = Normal (conv :: others) →
  conv_messages conv ≠ Null →
  let sorted := arraySort W (messagesOf conv) in
  let pinned := pinnedTo (firstCreatedAt sorted) in
  ∃ g st' c,
    result (getDefaultGreeting W pinned st) = Normal g
    ∧ fetchLatestConversation W fallback st
      = (Normal (Some (sortedInPlace W conv)), st')
    ∧ messages st' = g ++ sorted
    ∧ conversationId st' = Some (conv_id conv)
    ∧ channel st' = Some c
    ∧ chan_topic c = "conversation:" +:+ conv_id conv
    ∧ chan_kind c = ConversationChannel
    ∧ ChannelJoin c ∈ trace st'.
Proof.
  intros Hcustomer Hne Hanswer Hnull sorted pinned.
  destruct (fetched_fields customer st) as (Hsame & _).
  destruct Hsame as (Hcfg & _ & _ & _ & _ & Hsett & _).
  remember (fetched customer st) as st2 eqn:Hst2.
  destruct (setConversationId_run (conv_id conv) st2)
    as (st3 & c & Hset & Hconv3 & Hchan3 & Htopic & Hkind & Hjoin3 & Hcfg3 & Hsett3).
  destruct (getDefaultGreeting_runs W pinned st3) as (g & n & Hgreet).
  destruct (setMessages_run (g ++ sorted) (tick n st3))
    as (st4 & Hsetm & Hmsgs4 & Hconv4 & Hchan4 & Htrace4).
  exists g, st4, c.
  split.
  { rewrite <- (getDefaultGreeting_same W W st3 st) by
      (try congruence; right; eexists; reflexivity).
    rewrite Hgreet. reflexivity. }
  split.
  { apply try_catch_normal.
    rewrite (bind_normal (get customerId) _ st (customerId st) st eq_refl).
    rewrite Hcustomer.
    replace (JS.truthy (Some customer)) with true
      by (destruct customer; [congruence | reflexivity]).
    change (negb true) with false. cbv iota.
    rewrite (bind_normal _ _ st tt _ (logger_debug_run _ st)).
    rewrite (bind_normal _ _ _ _ _
               (fetchLatestCustomerConversation_run st customer _ Hanswer)).
    cbv beta iota delta [head]. rewrite <- Hst2.
    rewrite (bind_normal _ _ st2 sorted st2).
    - fold pinned.
      rewrite (bind_normal _ _ st2 tt st3 Hset).
      rewrite (bind_normal _ _ st3 g (tick n st3) Hgreet).
      rewrite (bind_normal _ _ (tick n st3) tt st4 Hsetm).
      reflexivity.
    - subst sorted. unfold messagesOf.
      destruct (conv_messages conv); [reflexivity | contradiction | reflexivity]. }
  split; [assumption|]. split; [rewrite Hconv4; exact Hconv3|].
  split; [rewrite Hchan4; exact Hchan3|].
  split; [assumption|]. split; [assumption|]. apply Htrace4, Hjoin3.
Qed.

(** What [fetchLatestConversation] does with a latest conversation whose
    messages are [null]: the sort throws, and the handler logs. *)
Lemma fetchLatestConversation_null_run st fallback customer conv others :
  JS.or (customerId st) fallback = Some customer → customer ≠ "" →
  api_fetchCustomerConversations W
    (trace (logged "Fetching conversations for customer:" st)) customer
  = Normal (conv :: others) →
  conv_messages conv = Null →
  fetchLatestConversation W fallback st
  = (Normal None, logged "Error fetching conversations!" (fetched customer st)).
Proof.
  intros Hcustomer Hne Hanswer Hnull.
  unfold fetchLatestConversation, try_catch.
  rewrite (bind_normal (get customerId) _ st (customerId st) st eq_refl).
  rewrite Hcustomer.
  replace (JS.truthy (Some customer)) with true
    by (destruct customer; [congruence | reflexivity]).
  change (negb true) with false. cbv iota.
  rewrite (bind_normal _ _ st tt _ (logger_debug_run _ st)).
  rewrite (bind_normal _ _ _ _ _
             (fetchLatestCustomerConversation_run st customer _ Hanswer)).
  cbv beta iota delta [head]. rewrite Hnull.
  rewrite (bind_throws throw _ (fetched customer st) (fetched customer st) eq_refl).
  rewrite (bind_normal _ _ _ tt _ (logger_debug_run _ _)). reflexivity.
Qed.

(** X25.  For a conversation without messages (an empty array, or no array
    at all), the conversation id is set and the transcript is the greeting
    default asked for with creation and seen timestamps [undefined]: with no
    generator configured, the greeting then has no creation timestamp at
    all, the clock's reading being overridden.  For a conversation whose
    messages are [null], the sort throws: nothing is returned, no
    conversation id is set, and the fields of the session are as before. *)
Theorem fetchLatestConversation_empty_conversation st fallback customer conv others :
  JS.or (customerId st) fallback = Some customer → customer ≠ "" →
  api_fetchCustomerConversations W
    (trace (logged "Fetching conversations for customer:" st)) customer
  = Normal (conv :: others) →
  let st' := final (fetchLatestConversation W fallback st) in
  (conv_messages conv = Undefined ∨ conv_messages conv = Value [] →
   ∃ g,
     result (getDefaultGreeting W (pinnedTo None) st) = Normal g
     ∧ messages st' = g
     ∧ conversationId st' = Some (conv_id conv)
     ∧ (setInitialMessage (config st) = None →
        Forall (λ m, created_at m = None ∧ seen_at m = None) g))
  ∧ (conv_messages conv = Null →
     result (fetchLatestConversation W fallback st) = Normal None
     ∧ sameFields st st').
Proof.
  intros Hcustomer Hne Hanswer st'. subst st'. split.
  - intros Hempty.
    destruct (fetchLatestConversation_found_run st fallback customer conv others
                Hcustomer Hne Hanswer)
      as (g & st' & c & Hg & -> & Hmsgs & Hconv & _).
    { destruct Hempty as [-> | ->]; discriminate. }
    assert (arraySort W (messagesOf conv) = []) as Hsort
      by (unfold messagesOf; destruct Hempty as [-> | ->]; reflexivity).
    rewrite Hsort in Hg, Hmsgs.
    exists g. split; [exact Hg|]. unfold final; simpl.
    split; [rewrite Hmsgs; apply app_nil_r|]. split; [assumption|].
    intros Hgen. apply (getDefaultGreeting_pinned W None st g Hgen Hg).
  - intros Hnull.
    rewrite (fetchLatestConversation_null_run st fallback customer conv others
               Hcustomer Hne Hanswer Hnull).
    split; [reflexivity|]. unfold final; simpl.
    apply logged_sameFields, fetched_fields.
Qed.

(** X26.  The greeting policy can return a message without text: with no
    generator and no greeting configured or fetched, an away message, and an
    account that is not outside working hours, it returns one bot message
    whose body is the missing greeting, unless the overrides give a body. *)
Theorem getDefaultGreeting_away_only_inside_hours st overrides :
  setInitialMessage (config st) = None →
  JS.truthy (greeting (config st)) = false →
  JS.truthy (ws_greeting (settings st)) = false →
  JS.truthy (JS.or (awayMessage (config st)) (away_message (settings st))) = true →
  match account (settings st) with
  | Some acc => default false (is_outside_working_hours acc)
  | None => false
  end = false →
  ∃ m, result (getDefaultGreeting W overrides st) = Normal [m]
       ∧ type m = default (Some MessageType.bot) (o_type overrides)
       ∧ (o_body overrides = None →
          body m = ws_greeting (settings st) ∧ JS.truthy (body m) = false).
Proof.
  intros Hgen Hgreeting Hfetched Haway Hinside.
  unfold getDefaultGreeting, result, mbind, M_bind, get, now; simpl.
  rewrite Hgen, Haway, Hinside. simpl.
  rewrite andb_false_r. simpl.
  eexists. split; [reflexivity|]. split; [reflexivity|].
  intros Hbody. simpl. rewrite Hbody. simpl.
  unfold JS.or. rewrite Hgreeting. split; [reflexivity | assumption].
Qed.

End MoreResolution.

(** ** Start-up *)

Section StartUp.

Variable W : World.

Lemma untouched_refl st : untouched st st.
Proof. repeat split; reflexivity. Qed.

Lemma connect_untouched st0 : returns connect ∧ keeps (untouched st0) connect.
Proof. split; [returning | keeping unaffected]. Qed.

Lemma fetchWidgetSettings_untouched st0 : keeps (untouched st0) (fetchWidgetSettings W).
Proof. keeping unaffected. Qed.

Lemma isValidCustomerId_untouched st0 id :
  returns (isValidCustomerId W id) ∧ keeps (untouched st0) (isValidCustomerId W id).
Proof. split; [returning | keeping unaffected]. Qed.

Lemma isValidCustomerId_unacceptable id st :
  unacceptable W id → result (isValidCustomerId W id st) = Normal false.
Proof.
  intros [Hfalsy | (s & -> & Hbad)]; unfold isValidCustomerId.
  - destruct id as [s|]; [|reflexivity]. rewrite Hfalsy. reflexivity.
  - destruct (negb (JS.truthy (Some s)) || (String.length s =? 0)); [reflexivity|].
    destruct Hbad as [Huuid | Hbackend].
    + rewrite Huuid. reflexivity.
    + destruct (isValidUuid W s); [|reflexivity]. simpl.
      unfold try_catch, isValidCustomer, await, result. rewrite Hbackend. reflexivity.
Qed.

(** The session up to the lookup of [start]: connected, the settings
    fetched, the customer id validated. *)
Lemma start_runs_to_lookup st :
  ∃ st2 verdict st3,
    untouched st st2 ∧ untouched st st3
    ∧ isValidCustomerId W (customerId st) st2 = (Normal verdict, st3)
    ∧ start W st
      = (resolved ← checkForExistingCustomer W
                      (Some (default noMetadata (cfg_customer (config st))))
                      (if verdict then customerId st else None);
         setWidgetSettings (settingsAtStart W st);;
         setCustomerId resolved;;
         fetchLatestConversation W resolved) st3.
Proof.
  destruct (connect_untouched st) as [Hret1 Hkeeps1].
  destruct (run_step (untouched st) connect st Hret1 Hkeeps1 (untouched_refl st))
    as ([] & st1 & Hconnect & Hst1).
  pose proof (fetchWidgetSettings_run W st1) as Hfetch.
  set (st2 := set_trace (ApiFetchWidgetSettings (accountId (config st1)) :: trace st1) st1)
    in *.
  assert (untouched st st2) as Hst2 by exact Hst1.
  destruct (isValidCustomerId_untouched st (customerId st)) as [Hret3 Hkeeps3].
  destruct (run_step (untouched st) _ st2 Hret3 Hkeeps3 Hst2)
    as (verdict & st3 & Hvalid & Hst3).
  exists st2, verdict, st3. split; [assumption|]. split; [assumption|].
  split; [assumption|].
  destruct Hst1 as ((Hcfg1 & _) & _).
  destruct Hst2 as ((_ & _ & Hcust2 & _) & _).
  destruct Hst3 as ((Hcfg3 & _ & Hcust3 & _) & _).
  unfold start.
  rewrite (bind_normal _ _ st tt st1 Hconnect).
  rewrite (bind_normal _ _ st1 _ st2 Hfetch).
  rewrite (bind_normal (get customerId) _ st2 (customerId st2) st2 eq_refl).
  rewrite Hcust2, (bind_normal _ _ st2 verdict st3 Hvalid).
  rewrite (bind_normal (get customerId) _ st3 (customerId st3) st3 eq_refl).
  rewrite (bind_normal (get config) _ st3 (config st3) st3 eq_refl).
  cbv zeta. rewrite Hcust3, Hcfg3, Hcfg1.
  unfold settingsAtStart. replace (final (connect st)) with st1
    by (rewrite Hconnect; reflexivity).
  reflexivity.
Qed.

Lemma setWidgetSettings_fields new_settings st :
  ∃ st',
    setWidgetSettings new_settings st = (Normal tt, st')
    ∧ settings st' = new_settings
    ∧ config st' = config st ∧ customerId st' = customerId st
    ∧ conversationId st' = conversationId st ∧ messages st' = messages st
    ∧ channel st' = channel st ∧ clock_reads st' = clock_reads st
    ∧ lastStored (trace st') = lastStored (trace st)
    ∧ lastMessagesUpdated (trace st') = lastMessagesUpdated (trace st).
Proof.
  unfold setWidgetSettings, mbind, M_bind, modify, get, when, emit; simpl.
  destruct (onSetWidgetSettings (config st)); eexists; repeat split; reflexivity.
Qed.

Lemma setCustomerId_fields id st :
  ∃ st',
    setCustomerId id st = (Normal tt, st')
    ∧ customerId st' = id
    ∧ lastStored (trace st') = Some (storable id)
    ∧ lastDispatched (trace st') = Some id
    ∧ config st' = config st ∧ settings st' = settings st
    ∧ conversationId st' = conversationId st ∧ messages st' = messages st
    ∧ channel st' = channel st ∧ clock_reads st' = clock_reads st
    ∧ lastMessagesUpdated (trace st') = lastMessagesUpdated (trace st).
Proof.
  destruct st as [cfg dbg customer conv msgs sett held made reads tr].
  destruct id as [text|]; [destruct text as [|a text]|];
    destruct dbg; destruct (onSetCustomerId cfg) eqn:Hcallback;
    unfold setCustomerId, cacheCustomerId, logger_debug, mbind, M_bind,
      emit, modify, get, when, storable; simpl;
    rewrite Hcallback; simpl; eexists; repeat split; reflexivity.
Qed.

(** X27.  When the configured customer has no external id and the customer
    id of the session does not stand validation (missing, malformed, or
    refused by the backend), [start] ends with no customer: it returns
    nothing, the customer id is [null] and removed from the storage, the
    settings are those fetched (empty if the fetch failed), the transcript is
    the greeting default computed from these settings, and no conversation
    is resolved. *)
Theorem start_discards_unacceptable_customer st :
  JS.truthy (external_id (default noMetadata (cfg_customer (config st)))) = false →
  unacceptable W (customerId st) →
  let st' := final (start W st) in
  ∃ g,
    result (getDefaultGreeting W noOverrides (set_settings (settingsAtStart W st) st))
    = Normal g
    ∧ result (start W st) = Normal None
    ∧ customerId st' = None
    ∧ lastStored (trace st') = Some None
    ∧ settings st' = settingsAtStart W st
    ∧ messages st' = g
    ∧ conversationId st' = conversationId st
    ∧ channel st' = channel st.
Proof.
  intros Hexternal Hbad st'. subst st'.
  destruct (start_runs_to_lookup st)
    as (st2 & verdict & st3 & Hst2 & Hst3 & Hvalid & ->).
  pose proof (isValidCustomerId_unacceptable (customerId st) st2 Hbad) as Hfalse.
  rewrite Hvalid in Hfalse. injection Hfalse as ->.
  destruct Hst3 as ((Hcfg3 & _ & Hcust3 & Hconv3 & Hmsgs3 & Hsett3 & Hchan3 & Hreads3) & _).
  assert (checkForExistingCustomer W
            (Some (default noMetadata (cfg_customer (config st)))) None st3
          = (Normal None, st3)) as Hcheck.
  { unfold checkForExistingCustomer. rewrite Hexternal. reflexivity. }
  rewrite (bind_normal _ _ st3 None st3 Hcheck).
  destruct (setWidgetSettings_fields (settingsAtStart W st) st3)
    as (st4 & Hset4 & Hsett4 & Hcfg4 & _ & Hconv4 & _ & Hchan4 & Hreads4 & _).
  rewrite (bind_normal _ _ st3 tt st4 Hset4).
  destruct (setCustomerId_fields None st4)
    as (st5 & Hset5 & Hcust5 & Hstored5 & _ & Hcfg5 & Hsett5 & Hconv5 & _ & Hchan5
        & Hreads5 & _).
  rewrite (bind_normal _ _ st4 tt st5 Hset5).
  destruct (fetchLatestConversation_without_customer_run W st5 None)
    as (g & st6 & Hgreet & -> & Hmsgs6 & _ & Hsett6 & Hcust6 & Hconv6 & Hchan6 & Htrace6).
  { rewrite Hcust5. reflexivity. }
  exists g.
  split.
  { rewrite (getDefaultGreeting_same W W _ st5 noOverrides); simpl.
    - rewrite Hgreet. reflexivity.
    - congruence.
    - congruence.
    - left. f_equal. congruence. }
  unfold result, final; simpl.
  split; [reflexivity|]. split; [congruence|].
  split; [destruct Htrace6 as [-> | ->]; exact Hstored5|].
  split; [congruence|]. split; [assumption|]. split; congruence.
Qed.

(** X28.  [start] can throw: when the configured customer has an external id
    and the backend lookup by that id fails, [start] throws.  Nothing was
    applied by then: settings, customer id, transcript, conversation id and
    channel are as before, and nothing was stored or dispatched. *)
Theorem start_throws_when_lookup_fails st metadata externalId :
  cfg_customer (config st) = Some metadata →
  external_id metadata = Some externalId → externalId ≠ "" →
  (∀ h, api_findCustomerByExternalId W h externalId (email metadata) (host metadata)
        = Throw) →
  result (start W st) = Throw
  ∧ untouched st (final (start W st)).
Proof.
  intros Hmetadata Hexternal Hne Hthrow.
  destruct (start_runs_to_lookup st)
    as (st2 & verdict & st3 & Hst2 & Hst3 & Hvalid & ->).
  rewrite Hmetadata. simpl default.
  assert (checkForExistingCustomer W (Some metadata)
            (if verdict then customerId st else None) st3
          = (Throw, set_trace
                      (ApiFindCustomerByExternalId externalId (email metadata)
                         (host metadata) :: trace st3) st3)) as Hcheck.
  { unfold checkForExistingCustomer, findCustomerByMetadata. rewrite Hexternal.
    replace (JS.truthy (Some externalId)) with true
      by (destruct externalId; [congruence | reflexivity]).
    simpl negb. cbv iota.
    apply bind_throws. unfold findCustomerByExternalId, await. rewrite Hthrow.
    reflexivity. }
  rewrite (bind_throws _ _ _ _ Hcheck). split; [reflexivity|]. exact Hst3.
Qed.

(** X29.  When the configured customer has no external id, the backend
    acknowledges the customer id of the session and returns a conversation
    for it whose messages are not [null], [start] resumes that conversation:
    it returns it with its messages sorted, keeps and stores the customer id,
    applies the fetched settings, sets the conversation id and joins its
    channel, and the transcript is the greeting default, computed from the
    fetched settings and pinned to the first of the sorted messages,
    followed by the sorted messages.  Sorted means in ascending order of
    creation time when every creation time is a date; the order is the
    engine's own otherwise. *)
Theorem start_resumes_conversation st id conv others :
  JS.truthy (external_id (default noMetadata (cfg_customer (config st)))) = false →
  customerId st = Some id → id ≠ "" → isValidUuid W id = true →
  (∀ h, api_isValidCustomer W h id = Normal true) →
  (∀ h, api_fetchCustomerConversations W h id = Normal (conv :: others)) →
  conv_messages conv ≠ Null →
  let st' := final (start W st) in
  let sorted := arraySort W (messagesOf conv) in
  let pinned := pinnedTo (firstCreatedAt sorted) in
  ∃ g c,
    result (getDefaultGreeting W pinned (set_settings (settingsAtStart W st) st))
    = Normal g
    ∧ result (start W st) = Normal (Some (sortedInPlace W conv))
    ∧ customerId st' = Some id
    ∧ lastStored (trace st') = Some (Some id)
    ∧ settings st' = settingsAtStart W st
    ∧ messages st' = g ++ sorted
    ∧ conversationId st' = Some (conv_id conv)
    ∧ channel st' = Some c
    ∧ chan_topic c = "conversation:" +:+ conv_id conv
    ∧ ChannelJoin c ∈ trace st'
    ∧ (Forall (dated W) (messagesOf conv) →
       Permutation (messagesOf conv) sorted ∧ StronglySorted (notAfter W) sorted).
Proof.
  intros Hexternal Hid Hne Huuid Hvalidates Hconversations Hnull st' sorted pinned.
  subst st'.
  destruct (start_runs_to_lookup st)
    as (st2 & verdict & st3 & Hst2 & Hst3 & Hvalid & ->).
  assert (verdict = true) as ->.
  { revert Hvalid. rewrite Hid. unfold isValidCustomerId.
    replace (negb (JS.truthy (Some id)) || (String.length id =? 0)) with false
      by (destruct id; [congruence | reflexivity]).
    rewrite Huuid. simpl.
    unfold try_catch, isValidCustomer, await. rewrite Hvalidates. congruence. }
  destruct Hst3 as ((Hcfg3 & _ & Hcust3 & Hconv3 & Hmsgs3 & Hsett3 & Hchan3 & Hreads3) & _).
  assert (checkForExistingCustomer W
            (Some (default noMetadata (cfg_customer (config st)))) (customerId st) st3
          = (Normal (customerId st), st3)) as Hcheck.
  { unfold checkForExistingCustomer. rewrite Hexternal. reflexivity. }
  cbv iota. rewrite (bind_normal _ _ st3 _ st3 Hcheck).
  destruct (setWidgetSettings_fields (settingsAtStart W st) st3)
    as (st4 & Hset4 & Hsett4 & Hcfg4 & _ & Hconv4 & _ & Hchan4 & Hreads4 & _).
  rewrite (bind_normal _ _ st3 tt st4 Hset4).
  destruct (setCustomerId_fields (customerId st) st4)
    as (st5 & Hset5 & Hcust5 & Hstored5 & _ & Hcfg5 & Hsett5 & Hconv5 & _ & Hchan5
        & Hreads5 & _).
  rewrite (bind_normal _ _ st4 tt st5 Hset5).
  destruct (fetchLatestConversation_found_run W st5 (customerId st) id conv others)
    as (g & st6 & c & Hg & Hrun & Hmsgs6 & Hconv6 & Hchan6 & Htopic & _ & Hjoin6).
  { rewrite Hcust5, Hid. unfold JS.or. destruct id; [congruence | reflexivity]. }
  { assumption. }
  { apply Hconversations. }
  { assumption. }
  assert (keeps (λ s, customerId s = customerId st
                      ∧ lastStored (trace s) = Some (storable (customerId st))
                      ∧ settings s = settingsAtStart W st)
            (fetchLatestConversation W (customerId st))) as Hkeeps
    by keeping unaffected.
  specialize (Hkeeps st5). rewrite Hrun in Hkeeps. unfold final in Hkeeps.
  simpl in Hkeeps.
  destruct Hkeeps as (Hcust6 & Hstored6 & Hsett6);
    [split; [assumption | split; [assumption | congruence]]|].
  exists g, c.
  split.
  { rewrite (getDefaultGreeting_same W W _ st5 pinned); simpl.
    - exact Hg.
    - congruence.
    - congruence.
    - right. eexists. reflexivity. }
  rewrite Hrun. unfold result, final; simpl.
  split; [reflexivity|]. split; [congruence|].
  split; [rewrite Hstored6, Hid; unfold storable;
          replace (JS.truthy (Some id)) with true
            by (destruct id; [congruence | reflexivity]); reflexivity|].
  split; [assumption|]. split; [assumption|]. split; [assumption|].
  split; [assumption|]. split; [assumption|]. split; [assumption|].
  intros Hdated. subst sorted. rewrite (arraySort_dated W _ Hdated).
  split; [apply sortByCreatedAt_perm | apply sortByCreatedAt_sorted, Hdated].
Qed.

End StartUp.

Section LocalCalls.

Variable W : World.

(** X30.  The delivery of a ['shout'], seen marks, the setters, [connect]
    and [disconnect] work on the session alone: whatever their sequence, the
    backend is not called.  (The delivery of ['conversation:created'] is
    another matter: its timer runs [fetchLatestConversation].) *)
Theorem local_calls_never_reach_backend calls st :
  forallb localCall calls = true →
  List.filter isApiCall (trace (session W calls st))
  = List.filter isApiCall (trace st).
Proof.
  revert st. induction calls as [|call calls IH]; intros st Hlocal; simpl in *.
  - reflexivity.
  - apply andb_true_iff in Hlocal as [Hcall Hcalls].
    rewrite (IH _ Hcalls).
    remember (List.filter isApiCall (trace st)) as calls0 eqn:Hst. symmetry in Hst.
    destruct call; try discriminate Hcall; cbv beta iota delta [perform];
      lazymatch goal with
      | |- context [final (?m ?s)] =>
          refine ((_ : keeps (λ s', List.filter isApiCall (trace s') = calls0) m) s Hst)
      end; keeping unaffected.
Qed.

End LocalCalls.

Lemma local_calls_never_reach_backend_witness :
  List.filter isApiCall
    (trace (session sampleWorld
              [CallConnect; CallSetConversationId "conversation-1";
               DeliverShout earlierAnswer; CallMarkMessagesAsSeen; CallDisconnect]
              (newSession sampleConfig false None)))
  = [].
Proof.
  apply (local_calls_never_reach_backend sampleWorld
           [CallConnect; CallSetConversationId "conversation-1";
            DeliverShout earlierAnswer; CallMarkMessagesAsSeen; CallDisconnect]
           (newSession sampleConfig false None)).
  reflexivity.
Defined.

Lemma fetchLatestConversation_survives_backend_failure_witness :
  result (fetchLatestConversation unreachableWorld None returningSession) = Normal None
  ∧ sameFields returningSession
      (final (fetchLatestConversation unreachableWorld None returningSession)).
Proof.
  apply (proj2 (fetchLatestConversation_survives_backend_failure unreachableWorld
                  returningSession None)
           "11111111-1111-1111-1111-111111111111").
  - reflexivity.
  - discriminate.
  - reflexivity.
Defined.

Lemma fetchLatestConversation_without_customer_witness :
  let st := newSession sampleConfig false None in
  ∃ g, result (getDefaultGreeting sampleWorld noOverrides st) = Normal g
       ∧ messages (final (fetchLatestConversation sampleWorld None st)) = g
       ∧ List.filter isApiCall (trace (final (fetchLatestConversation sampleWorld None st)))
         = [].
Proof.
  intros st.
  destruct (fetchLatestConversation_without_customer sampleWorld st None)
    as (g & Hg & _ & Hmsgs & _ & _ & Hcalls & _); [reflexivity|].
  exists g. repeat split; assumption.
Defined.

Lemma fetchLatestConversation_waits_in_lobby_witness :
  let st := newSession sampleConfig false (Some "22222222-2222-2222-2222-222222222222") in
  ∃ later,
    trace (final (fetchLatestConversation sampleWorld None st))
    = ChannelJoin (mkChannel 0 LobbyChannel
                     "conversation:lobby:22222222-2222-2222-2222-222222222222" None)
      :: ChannelOn (mkChannel 0 LobbyChannel
                      "conversation:lobby:22222222-2222-2222-2222-222222222222" None)
           "conversation:created"
      :: SocketChannel (mkChannel 0 LobbyChannel
                          "conversation:lobby:22222222-2222-2222-2222-222222222222" None)
      :: later.
Proof.
  intros st.
  destruct (fetchLatestConversation_waits_in_lobby sampleWorld st None
              "22222222-2222-2222-2222-222222222222")
    as (g & later & _ & _ & _ & _ & _ & Htrace & _).
  - reflexivity.
  - discriminate.
  - reflexivity.
  - exists later. exact Htrace.
Defined.

Lemma fetchLatestConversation_empty_conversation_witness :
  let st' := final (fetchLatestConversation worldWithEmptyConversation None
                      returningSession) in
  conversationId st' = Some "conversation-9"
  ∧ Forall (λ m, created_at m = None ∧ seen_at m = None) (messages st').
Proof.
  intros st'. subst st'.
  destruct (proj1 (fetchLatestConversation_empty_conversation worldWithEmptyConversation
                     returningSession None "11111111-1111-1111-1111-111111111111"
                     (mkConversation "conversation-9" (Value [])) []
                     eq_refl ltac:(discriminate) eq_refl))
    as (g & _ & Hmsgs & Hconv & Hunpinned).
  - right. reflexivity.
  - split; [exact Hconv|]. rewrite Hmsgs. apply Hunpinned. reflexivity.
Defined.

Lemma getDefaultGreeting_away_only_inside_hours_witness :
  ∃ m, result (getDefaultGreeting sampleWorld noOverrides (newSession awayConfig false None))
       = Normal [m]
       ∧ body m = None.
Proof.
  destruct (getDefaultGreeting_away_only_inside_hours sampleWorld
              (newSession awayConfig false None) noOverrides)
    as (m & Hm & _ & Hbody); try reflexivity.
  exists m. split; [exact Hm|]. apply Hbody. reflexivity.
Defined.

Lemma start_discards_unacceptable_customer_witness :
  let st := newSession sampleConfig false (Some "not-a-uuid") in
  customerId (final (start sampleWorld st)) = None
  ∧ lastStored (trace (final (start sampleWorld st))) = Some None
  ∧ conversationId (final (start sampleWorld st)) = None.
Proof.
  intros st.
  destruct (start_discards_unacceptable_customer sampleWorld st)
    as (g & _ & _ & Hcustomer & Hstored & _ & _ & Hconv & _).
  - reflexivity.
  - right. exists "not-a-uuid". split; [reflexivity|]. left. vm_compute. reflexivity.
  - repeat split; assumption.
Defined.

Lemma start_throws_when_lookup_fails_witness :
  let st := newSession identifiedConfig false None in
  result (start unreachableWorld st) = Throw
  ∧ untouched st (final (start unreachableWorld st)).
Proof.
  intros st.
  apply (start_throws_when_lookup_fails unreachableWorld st
           (mkCustomerMetadata None (Some "a@example.com") (Some "ext-1") None) "ext-1").
  - reflexivity.
  - reflexivity.
  - discriminate.
  - reflexivity.
Defined.

Lemma start_resumes_conversation_witness :
  let st' := final (start acknowledgingWorld returningSession) in
  customerId st' = Some "11111111-1111-1111-1111-111111111111"
  ∧ lastStored (trace st') = Some (Some "11111111-1111-1111-1111-111111111111")
  ∧ conversationId st' = Some "conversation-7"
  ∧ ∃ g, messages st' = g ++ [earlierQuestion; earlierAnswer].
Proof.
  intros st'. subst st'.
  destruct (start_resumes_conversation acknowledgingWorld returningSession
              "11111111-1111-1111-1111-111111111111"
              (mkConversation "conversation-7" (Value [earlierAnswer; earlierQuestion])) [])
    as (g & c & _ & _ & Hcustomer & Hstored & _ & Hmsgs & Hconv & _).
  - reflexivity.
  - reflexivity.
  - discriminate.
  - vm_compute. reflexivity.
  - reflexivity.
  - reflexivity.
  - discriminate.
  - split; [exact Hcustomer|]. split; [exact Hstored|]. split; [exact Hconv|].
    exists g. exact Hmsgs.
Defined.

Lemma createOrUpdateCustomer_retries_by_creating_witness :
  result (createOrUpdateCustomer unreachableWorld (Some "customer-1")
            (mkCustomerMetadata None (Some "a@example.com") None None)
            (newSession sampleConfig false None))
  = Throw
  ∧ sameFields (newSession sampleConfig false None)
      (final (createOrUpdateCustomer unreachableWorld (Some "customer-1")
                (mkCustomerMetadata None (Some "a@example.com") None None)
                (newSession sampleConfig false None))).
Proof.
  destruct (createOrUpdateCustomer_retries_by_creating unreachableWorld
              (newSession sampleConfig false None) "customer-1"
              (mkCustomerMetadata None (Some "a@example.com") None None))
    as (Hresult & _ & Hfields).
  - discriminate.
  - reflexivity.
  - split; [exact Hresult | exact Hfields].
Defined.

(** ** Worked examples *)

(** The scenario of the specification: a cached customer with one earlier
    conversation of two confirmed messages. *)
Example fetchLatestConversation_sample :
  let st := newSession sampleConfig false
              (Some "11111111-1111-1111-1111-111111111111") in
  messages (final (fetchLatestConversation sampleWorld None st))
  = [mkMessage (Some "Hi there!") None (Some MessageType.bot) (Some "bot") None
       (Some "2021-02-27T08:00:00.400Z") (Some "2021-02-27T08:00:00.400Z");
     earlierQuestion; earlierAnswer]
  ∧ conversationId (final (fetchLatestConversation sampleWorld None st))
    = Some "conversation-7".
Proof. split; vm_compute; reflexivity. Qed.

(** A fresh session with no customer: the transcript is the greeting and
    nothing is resolved. *)
Example fetchLatestConversation_fresh :
  let st := newSession sampleConfig false None in
  fetchLatestConversation sampleWorld None st
  = (Normal None,
     set_trace
       [OnMessagesUpdated
          [mkMessage (Some "Hi there!") None (Some MessageType.bot) (Some "bot")
             None (Some "2021-03-01T10:00:00.000Z") None]]
       (set_messages
          [mkMessage (Some "Hi there!") None (Some MessageType.bot) (Some "bot")
             None (Some "2021-03-01T10:00:00.000Z") None]
          (tick 1 st))).
Proof. vm_compute. reflexivity. Qed.

(** Sending "hi" in a fresh session: the optimistic entry, then customer and
    conversation created, the channel joined and the message pushed. *)
Example sendNewMessage_sample :
  let st' := final (sendNewMessage sampleWorld
                      (mkMessage (Some "hi") None None None None None None) None
                      (newSession sampleConfig false None)) in
  messages st' = [pendingMessage "hi" "2021-03-01T10:00:00.000Z"]
  ∧ customerId st' = Some "22222222-2222-2222-2222-222222222222"
  ∧ conversationId st' = Some "conversation-1"
  ∧ joinedConversations (trace st')
    = [mkChannel 0 ConversationChannel "conversation:conversation-1"
         (Some "22222222-2222-2222-2222-222222222222")].
Proof. repeat split; vm_compute; reflexivity. Qed.

(** Three calls of [setConversationId]: only the last channel stays joined. *)
Example setConversationIds_sample :
  joinedConversations
    (trace (final (setConversationIds ["conversation-1"; "conversation-2"; "conversation-1"]
                     (newSession sampleConfig false None))))
  = [mkChannel 2 ConversationChannel "conversation:conversation-1" None].
Proof. vm_compute. reflexivity. Qed.

(** A conversation is created for a visitor waiting in the lobby: the timer
    is pending until it runs, and its run asks the backend again. *)
Example timeout_sample :
  let customer := "22222222-2222-2222-2222-222222222222" in
  let waiting :=
    session sampleWorld
      [CallFetchLatestConversation None; DeliverConversationCreated customer]
      (newSession sampleConfig false (Some customer)) in
  pendingTimeouts (trace waiting) = [customer]
  ∧ List.filter isApiCall (trace waiting) = [ApiFetchCustomerConversations customer]
  ∧ pendingTimeouts (trace (perform sampleWorld (DeliverTimeout customer) waiting)) = []
  ∧ List.filter isApiCall (trace (perform sampleWorld (DeliverTimeout customer) waiting))
    = [ApiFetchCustomerConversations customer; ApiFetchCustomerConversations customer]
  ∧ perform sampleWorld (DeliverTimeout "someone else") waiting = waiting.
Proof.
  intros customer waiting.
  split; [|split; [|split; [|split]]]; vm_compute; reflexivity.
Qed.

Example trim_sample :
  JS.trim "  a b  " = "a b" ∧ JS.trim "   " = ""
  ∧ JS.trim (nbsp +:+ "a" +:+ nbsp) = "a" ∧ JS.whitespaceOnly nbsp = true.
Proof. repeat split; vm_compute; reflexivity. Qed.
